(** * External project access scanner: rule book, rules engine and
      ancestry cache

    A shallow embedding of
    [google/cloud/forseti/scanner/audit/external_project_access_rules_engine.py]
    and
    [google/cloud/forseti/scanner/scanners/external_project_access_scanner.py],
    followed by the properties of the rule book, of the evaluation and of
    the per-run ancestry cache.

    Conventions.  Python exceptions are values of [exn]; a computation that
    may raise returns a [result]; a method that mutates [self] returns the
    new object next to its result; a generator is the list of the outcomes
    of its successive resumptions ([gen]), and nothing fails until the
    generator is consumed. *)

From Stdlib Require Import String Ascii List Bool Arith Lia.
From stdpp Require Import base option list strings pretty gmap.

Local Open Scope string_scope.
Local Open Scope list_scope.

(** ** Exceptions and results *)

Inductive exn : Type :=
| InvalidRulesSchemaError (msg : string)
| TypeError
| IndexError
| AttributeError
| KeyError
| RefreshError
| OtherError (what : string).

Inductive result (A : Type) : Type :=
| Ok (a : A)
| Raise (e : exn).

Arguments Ok {A} a.
Arguments Raise {A} e.

#[global] Instance result_ret : MRet result := fun A a => Ok a.

#[global] Instance result_bind : MBind result := fun A B k r =>
  match r with
  | Ok a => k a
  | Raise e => Raise e
  end.

(** A generator: the outcome of each resumption, in order.  Consuming it
    ([list(g)], [l.extend(g)]) collects the values up to the first
    resumption that raises. *)
Definition gen (A : Type) : Type := list (result A).

Fixpoint consume {A : Type} (g : gen A) : result (list A) :=
  match g with
  | [] => Ok []
  | Ok a :: g' => l ← consume g'; Ok (a :: l)
  | Raise e :: _ => Raise e
  end.

(** [x is None]. *)
Definition is_None {A : Type} (x : option A) : bool :=
  match x with
  | None => true
  | Some _ => false
  end.

(** [seq[i]] on a Python list. *)
Definition getitem {A : Type} (l : list A) (i : nat) : result A :=
  match l !! i with
  | Some a => Ok a
  | None => Raise IndexError
  end.

(** ** Resources *)

(** Modelled from the spec: [resource_mod.ResourceType], of which the
    scanner meets three members (section 3, AncestryResource). *)
Inductive ResourceType : Type := ORGANIZATION | FOLDER | PROJECT.

(** Modelled from the spec: the resource classes of
    [common.gcp_type] (section 3): a typed node with an id and a display
    name. *)
Record AncestryResource : Type := mkResource {
  r_type : ResourceType;
  r_id : string;
  r_name : string
}.

Definition ResourceType_eqb (a b : ResourceType) : bool :=
  match a, b with
  | ORGANIZATION, ORGANIZATION | FOLDER, FOLDER | PROJECT, PROJECT => true
  | _, _ => false
  end.

(** Modelled from the spec: equality of resources is the exact match of
    type and id (section 4.2); the name takes no part in it. *)
Definition resource_eqb (a b : AncestryResource) : bool :=
  ResourceType_eqb (r_type a) (r_type b) && String.eqb (r_id a) (r_id b).

(** [x in seq] and [x not in seq] on a list of resources. *)
Definition contains (chain : list AncestryResource) (x : AncestryResource) : bool :=
  existsb (resource_eqb x) chain.

(** Modelled from the spec: the first component of a resource name,
    [organization/567890] in the spec's example (section 3). *)
Definition type_label (t : ResourceType) : string :=
  match t with
  | ORGANIZATION => "organization"
  | FOLDER => "folder"
  | PROJECT => "project"
  end.

(** Modelled from the spec: [resource_util.create_resource(id, type)]
    builds the resource of that type and id, with its display name. *)
Definition create_resource (resource_id : string) (resource_type : ResourceType)
  : AncestryResource :=
  {| r_type := resource_type;
     r_id := resource_id;
     r_name := type_label resource_type +:+ "/" +:+ resource_id |}.

(** [name.startswith(prefix)]. *)
Fixpoint startswith (s prefix : string) : bool :=
  match prefix, s with
  | EmptyString, _ => true
  | String p prefix', String c s' => Ascii.eqb p c && startswith s' prefix'
  | String _ _, EmptyString => false
  end.

(** Modelled from the spec: [resource_util.type_from_name(name)] is the
    type whose plural starts the name, if any (section 4.1, step 3). *)
Definition type_from_name (resource_name : string) : option ResourceType :=
  if startswith resource_name "organizations" then Some ORGANIZATION
  else if startswith resource_name "folders" then Some FOLDER
  else if startswith resource_name "projects" then Some PROJECT
  else None.

(** [s.split('/')]. *)
Fixpoint split_slash_from (cur : string) (s : string) : list string :=
  match s with
  | EmptyString => [cur]
  | String c s' =>
      if Ascii.eqb c "/" then cur :: split_slash_from "" s'
      else split_slash_from (cur +:+ String c EmptyString) s'
  end.

Definition split_slash (s : string) : list string := split_slash_from "" s.

(** ** The ancestor pattern

    [re.compile(r'^organizations/\d+$|^folders/\d+$')], used with
    [pattern.match(s)].  The pattern is an alternation of sequences of the
    four atoms below.  As in Python's [re] without flags: [^] holds at
    offset 0 only; [$] holds at the end of the string and also just before
    a newline that is the last character; [\d] on a byte string is one of
    [0-9]; [+] is greedy and gives characters back on failure. *)

Inductive atom : Type :=
| Bol
| Eol
| Lit (s : string)
| Digits1.

Definition is_digit (c : ascii) : bool :=
  ((48 <=? nat_of_ascii c) && (nat_of_ascii c <=? 57))%nat.

Definition newline : ascii := "010"%char.

Definition at_eol (rest : string) : bool :=
  match rest with
  | EmptyString => true
  | String c EmptyString => Ascii.eqb c newline
  | _ => false
  end.

(** The text left once [lit] has been read off the front of [s]. *)
Fixpoint strip_literal (lit s : string) : option string :=
  match lit, s with
  | EmptyString, _ => Some s
  | String p lit', String c s' =>
      if Ascii.eqb p c then strip_literal lit' s' else None
  | String _ _, EmptyString => None
  end.

(** [\d*] followed by the continuation [k], longest run first. *)
Fixpoint digits_star (k : string -> bool) (s : string) : bool :=
  match s with
  | String c s' => if is_digit c then digits_star k s' || k s else k s
  | EmptyString => k s
  end.

(** [at_start] tells whether the text left is the whole subject. *)
Fixpoint match_seq (atoms : list atom) (at_start : bool) (s : string) : bool :=
  match atoms with
  | [] => true
  | Bol :: atoms' => at_start && match_seq atoms' at_start s
  | Eol :: atoms' => at_eol s && match_seq atoms' at_start s
  | Lit lit :: atoms' =>
      match strip_literal lit s with
      | Some s' =>
          match_seq atoms' (at_start && (String.length lit =? 0)%nat) s'
      | None => false
      end
  | Digits1 :: atoms' =>
      match s with
      | String c s' =>
          is_digit c && digits_star (match_seq atoms' false) s'
      | EmptyString => false
      end
  end.

(** [pattern.match(s)] is not [None]. *)
Definition re_match (alternatives : list (list atom)) (s : string) : bool :=
  existsb (fun atoms => match_seq atoms true s) alternatives.

Definition ancestor_pattern : list (list atom) :=
  [ [Bol; Lit "organizations/"; Digits1; Eol];
    [Bol; Lit "folders/"; Digits1; Eol] ].

(** ** Rule definitions, rules and violations *)

(** One entry of the rules file: a dict read with [.get('name')] and
    [.get('ancestor', None)]. *)
Record RuleDef : Type := mkRuleDef {
  def_name : option string;
  def_ancestor : option string
}.

(** One entry of the ['rules'] list as the loader hands it over.  The
    value under ['ancestor'] is absent, [None] or a string ([WellTyped]),
    or a value of another type, a number or a list for instance
    ([IllTyped]), of which the code only ever takes the truth value. *)
Inductive LoadedRule : Type :=
| WellTyped (rule_def : RuleDef)
| IllTyped (name : option string) (truthy : bool).

(** The loaded rules file: a dict read with [.get('rules', [])]. *)
Record RuleDefs : Type := LoadedRuleDefs {
  defs_rules : option (list LoadedRule)
}.

(** The rules file whose entries all have a string, [None] or nothing
    under ['ancestor']. *)
Definition mkRuleDefs (rule_defs : option (list RuleDef)) : RuleDefs :=
  {| defs_rules := map WellTyped <$> rule_defs |}.

(** [Rule]: [rules] holds the ancestor resource of the rule. *)
Record Rule : Type := mkRule {
  rule_name : option string;
  rule_index : nat;
  rules : AncestryResource
}.

(** A field of a named tuple is untyped: the values met here are strings
    and resources.  [getattr_name o] is [o.name]. *)
Inductive pyobj : Type :=
| PyStr (s : string)
| PyResource (r : AncestryResource).

Definition getattr_name (o : pyobj) : result string :=
  match o with
  | PyResource r => Ok (r_name r)
  | PyStr _ => Raise AttributeError
  end.

Module RuleViolation.
Record t : Type := mk {
  resource_type : ResourceType;
  resource_id : string;
  rule_name : option string;
  rule_index : nat;
  rule_ancestor : pyobj;
  full_name : string;
  violation_type : string;
  member : string;
  resource_data : string
}.
End RuleViolation.

(** [Rule.policy_violation]: a generator with one [yield]. *)
Definition policy_violation (self : Rule) (user_email : string)
    (ancestry : list AncestryResource) : gen RuleViolation.t :=
  [ leaf ← getitem ancestry 0;
    leaf' ← getitem ancestry 0;
    Ok {| RuleViolation.resource_type := PROJECT;
          RuleViolation.resource_id := r_id leaf;
          RuleViolation.rule_name := rule_name self;
          RuleViolation.rule_index := rule_index self;
          RuleViolation.rule_ancestor := PyStr (r_name (rules self));
          RuleViolation.full_name := r_name leaf';
          RuleViolation.violation_type := "EXTERNAL_PROJECT_ACCESS_VIOLATION";
          RuleViolation.member := user_email;
          RuleViolation.resource_data :=
            String.concat "," (map r_name ancestry) |} ].

(** ** The rule book *)

Definition dquote : string := String (ascii_of_nat 34) EmptyString.

Definition missing_ancestor_msg (rule_index : nat) : string :=
  "Missing ancestor in rule " +:+ pretty rule_index.

Definition bad_ancestor_msg (rule_index : nat) : string :=
  "Ancestor in rule " +:+ pretty rule_index +:+ " must start with "
  +:+ dquote +:+ "organization/" +:+ dquote +:+ " or "
  +:+ dquote +:+ "folder/" +:+ dquote.

(** [ExternalProjectAccessRuleBook.validate_ancestor]. *)
Definition validate_ancestor (ancestor : option string) (rule_index : nat)
  : result unit :=
  match ancestor with
  | None => Raise (InvalidRulesSchemaError (missing_ancestor_msg rule_index))
  | Some a =>
      if (String.length a <? 1)%nat then
        Raise (InvalidRulesSchemaError (missing_ancestor_msg rule_index))
      else if re_match ancestor_pattern a then Ok tt
      else Raise (InvalidRulesSchemaError (bad_ancestor_msg rule_index))
  end.

(** [ExternalProjectAccessRuleBook.process_rule].  The two branches marked
    unreachable stand after a validation that has raised for such input
    (lemma [process_rule_validated]). *)
Definition process_rule (rule_def : RuleDef) (rule_index : nat)
  : result AncestryResource :=
  let ancestor := def_ancestor rule_def in
  _ ← validate_ancestor ancestor rule_index;
  match ancestor with
  | None => Raise AttributeError (* unreachable *)
  | Some a =>
      resource_id ← getitem (split_slash a) 1;
      match type_from_name a with
      | Some resource_type => Ok (create_resource resource_id resource_type)
      | None => Raise (OtherError "no resource type") (* unreachable *)
      end
  end.

(** [resource_rules_map]: a dict keyed by resources, whose keys are
    compared by type and id.  It is kept as the list of its items, a new
    key going to the end; Python 2 fixes no iteration order for a dict, and
    no statement below depends on the order chosen here beyond naming the
    sequence of violations. *)
Record ExternalProjectAccessRuleBook : Type := mkRuleBook {
  resource_rules_map : list (AncestryResource * Rule)
}.

(** [m[key]] with the keys compared by [resource_eqb]. *)
Definition rules_map_get (m : list (AncestryResource * Rule))
    (key : AncestryResource) : option Rule :=
  snd <$> List.find (fun kr => resource_eqb key (fst kr)) m.

(** [ExternalProjectAccessRuleBook.add_rule]. *)
Definition add_rule (self : ExternalProjectAccessRuleBook) (rule_def : RuleDef)
    (rule_index : nat) : result ExternalProjectAccessRuleBook :=
  ancestor ← process_rule rule_def rule_index;
  let rule := {| rule_name := def_name rule_def;
                 rule_index := rule_index;
                 rules := ancestor |} in
  if negb (contains (map fst (resource_rules_map self)) ancestor) then
    Ok {| resource_rules_map := resource_rules_map self ++ [(ancestor, rule)] |}
  else Ok self.

(** [add_rule] on an entry as loaded.  When the ancestor is of another
    type than a string, [validate_ancestor] raises before anything is
    added: the schema error at [not ancestor] when the value is falsy,
    and otherwise [TypeError], at [len(ancestor)] for a value without
    length and at [pattern.match(ancestor)] for one with a length. *)
Definition add_loaded_rule (self : ExternalProjectAccessRuleBook)
    (entry : LoadedRule) (rule_index : nat)
  : result ExternalProjectAccessRuleBook :=
  match entry with
  | WellTyped rule_def => add_rule self rule_def rule_index
  | IllTyped _ false =>
      Raise (InvalidRulesSchemaError (missing_ancestor_msg rule_index))
  | IllTyped _ true => Raise TypeError
  end.

(** The loop of [add_rules] over [enumerate(...)], from index [i] on.  The
    rule book is updated in place: when an entry raises, the rules of the
    entries before it are in the book. *)
Fixpoint add_rules_loop (self : ExternalProjectAccessRuleBook) (i : nat)
    (entries : list LoadedRule)
  : ExternalProjectAccessRuleBook * result unit :=
  match entries with
  | [] => (self, Ok tt)
  | entry :: rest =>
      match add_loaded_rule self entry i with
      | Ok self => add_rules_loop self (S i) rest
      | Raise e => (self, Raise e)
      end
  end.

(** [ExternalProjectAccessRuleBook.add_rules].  The [try] spans the whole
    loop: a [TypeError] raised by an entry ends it silently, with the
    rules added so far kept, and any other exception goes on to the
    caller.  [None] for [defs_rules] is an absent ['rules'] key, read as
    the empty list, or a ['rules'] key that holds [None], where
    [enumerate] raises the [TypeError] that is absorbed: either way the
    book stays as it is. *)
Definition add_rules (self : ExternalProjectAccessRuleBook)
    (rule_defs : RuleDefs) : result ExternalProjectAccessRuleBook :=
  match defs_rules rule_defs with
  | None => Ok self
  | Some entries =>
      match add_rules_loop self 0 entries with
      | (self, Ok _) => Ok self
      | (self, Raise TypeError) => Ok self
      | (_, Raise e) => Raise e
      end
  end.

(** The loop of [add_rules] when every entry is [WellTyped]: no
    [TypeError] arises and the loop is the plain sequence of the calls of
    [add_rule] (lemma [add_rules_loop_well_typed]). *)
Fixpoint add_rules_from (self : ExternalProjectAccessRuleBook) (i : nat)
    (rule_defs : list RuleDef) : result ExternalProjectAccessRuleBook :=
  match rule_defs with
  | [] => Ok self
  | rule :: rest =>
      self' ← add_rule self rule i;
      add_rules_from self' (S i) rest
  end.

Definition GlobalConfigs : Type := list (string * string).

(** [ExternalProjectAccessRuleBook.__init__]. *)
Definition RuleBook_init (global_configs : option GlobalConfigs)
    (rule_defs : option RuleDefs) : result ExternalProjectAccessRuleBook :=
  let self := {| resource_rules_map := [] |} in
  match rule_defs with
  | None => Ok self
  | Some defs => add_rules self defs
  end.

(** ** The rules engine *)

(** [rules_file] is what [_load_rule_definitions()] reads from
    [rules_file_path]. *)
Record ExternalProjectAccessRulesEngine : Type := mkEngine {
  rules_file : option RuleDefs;
  rule_book : option ExternalProjectAccessRuleBook
}.

(** [ExternalProjectAccessRulesEngine.__init__]. *)
Definition Engine_init (rules_file : option RuleDefs)
  : ExternalProjectAccessRulesEngine :=
  {| rules_file := rules_file; rule_book := None |}.

(** [build_rule_book(self, global_configs)].  [global_configs] has no
    default: [args] is what the call site passes after [self], and a call
    passing nothing raises [TypeError] before the body runs. *)
Definition build_rule_book (self : ExternalProjectAccessRulesEngine)
    (args : option GlobalConfigs)
  : ExternalProjectAccessRulesEngine * result unit :=
  match args with
  | None => (self, Raise TypeError)
  | Some global_configs =>
      match RuleBook_init (Some global_configs) (rules_file self) with
      | Ok book =>
          ({| rules_file := rules_file self; rule_book := Some book |}, Ok tt)
      | Raise e => (self, Raise e)
      end
  end.

(** The items of the map whose key is not in the chain. *)
Definition rules_violated (book : ExternalProjectAccessRuleBook)
    (project_ancestry : list AncestryResource) : list Rule :=
  map snd
    (List.filter (fun kr => negb (contains project_ancestry (fst kr)))
       (resource_rules_map book)).

(** [find_policy_violations]: the rebuild is the call
    [self.build_rule_book()], with no argument. *)
Definition find_policy_violations (self : ExternalProjectAccessRulesEngine)
    (user_email : string) (project_ancestry : list AncestryResource)
    (force_rebuild : bool)
  : ExternalProjectAccessRulesEngine * result (gen RuleViolation.t) :=
  let '(self, rebuilt) :=
    if is_None (rule_book self) || force_rebuild
    then build_rule_book self None
    else (self, Ok tt) in
  match rebuilt, rule_book self with
  | Raise e, _ => (self, Raise e)
  | Ok _, None => (self, Raise AttributeError)
  | Ok _, Some book =>
      (self,
       Ok (concat (map (fun rule => policy_violation rule user_email
                                      project_ancestry)
                     (rules_violated book project_ancestry))))
  end.

(** ** The scanner *)

(** One element of the answer of [get_project_ancestry], read as
    [resource['resourceId']['id']] and [resource['resourceId']['type']]. *)
Record AncestorDescriptor : Type := mkDescriptor {
  resourceId_id : string;
  resourceId_type : ResourceType
}.

(** The resource manager service, outside the repository.
    - [get_delegated_credential user] may raise ([RefreshError]);
    - [get_projects user] is the sequence of result pages seen by
      [user]; a page is [Some ids], the [projectId] of each entry of its
      ['projects'] list, or [None] when the page has no ['projects'] key
      (a user without projects);
    - [get_project_ancestry history user project_id] is what iterating
      over the answer yields, followed by the exception that ends the
      iteration early, if any; [history] lists the project ids of the
      ancestry requests sent before this one, so that the service may
      answer the same request differently over time. *)
Record CloudResourceManager : Type := mkCrm {
  get_delegated_credential : string -> result unit;
  get_projects : string -> result (list (option (list string)));
  get_project_ancestry :
    list string -> string -> string -> list AncestorDescriptor * option exn
}.

(** The scanner object: the engine built by [__init__] and the
    [_ancestries] dict. *)
Record ExternalProjectAccessScanner : Type := mkScanner {
  rules_engine : ExternalProjectAccessRulesEngine;
  _ancestries : gmap string (list AncestryResource)
}.

(** The scanner together with the requests [get_project_ancestry] has
    received so far, oldest first; the second component is observation
    only, no code reads it. *)
Record World : Type := mkWorld {
  scanner : ExternalProjectAccessScanner;
  remote_lookups : list string
}.

(** [ExternalProjectAccessScanner.__init__]: the rule book is built with
    the inventory configuration, the cache starts empty. *)
Definition Scanner_init (inventory_configs : GlobalConfigs)
    (rules_file : option RuleDefs) : result ExternalProjectAccessScanner :=
  match build_rule_book (Engine_init rules_file) (Some inventory_configs) with
  | (engine, Ok _) => Ok {| rules_engine := engine; _ancestries := ∅ |}
  | (_, Raise e) => Raise e
  end.

(** [self._ancestries[project_id] = chain]. *)
Definition set_ancestry (w : World) (project_id : string)
    (chain : list AncestryResource) : World :=
  {| scanner := {| rules_engine := rules_engine (scanner w);
                   _ancestries := <[project_id := chain]>
                                    (_ancestries (scanner w)) |};
     remote_lookups := remote_lookups w |}.

(** [self._ancestries[project_id].append(resource)]. *)
Definition append_ancestry (w : World) (project_id : string)
    (resource : AncestryResource) : World :=
  {| scanner := {| rules_engine := rules_engine (scanner w);
                   _ancestries := alter (fun chain => chain ++ [resource])
                                    project_id (_ancestries (scanner w)) |};
     remote_lookups := remote_lookups w |}.

(** The request [crm_client.get_project_ancestry(project_id)] goes out. *)
Definition record_lookup (w : World) (project_id : string) : World :=
  {| scanner := scanner w;
     remote_lookups := remote_lookups w ++ [project_id] |}.

(** The inner [for resource in ...] loop over what the answer yields. *)
Fixpoint append_resources (w : World) (project_id : string)
    (answer : list AncestorDescriptor) : World :=
  match answer with
  | [] => w
  | resource :: answer' =>
      append_resources
        (append_ancestry w project_id
           (create_resource (resourceId_id resource)
              (resourceId_type resource)))
        project_id answer'
  end.

(** The [if project_id not in self._ancestries.keys()] block. *)
Definition ensure_ancestry (crm : CloudResourceManager) (user_email : string)
    (w : World) (project_id : string) : World * result unit :=
  match _ancestries (scanner w) !! project_id with
  | Some _ => (w, Ok tt)
  | None =>
      let w := set_ancestry w project_id [] in
      let '(answer, failure) :=
        get_project_ancestry crm (remote_lookups w) user_email project_id in
      let w := append_resources (record_lookup w project_id) project_id
                 answer in
      match failure with
      | Some e => (w, Raise e)
      | None => (w, Ok tt)
      end
  end.

(** The [for project_id in project_ids] loop; [ancestries] is the list
    built so far.  What is appended is the list object the cache holds;
    that object is written only inside [ensure_ancestry] for its own
    project, before it is appended anywhere, so the value taken here is
    the one every holder goes on seeing (lemma [grows_lookup]). *)
Fixpoint for_project_ids (crm : CloudResourceManager) (user_email : string)
    (w : World) (project_ids : list string)
    (ancestries : list (list AncestryResource))
  : World * result (list (list AncestryResource)) :=
  match project_ids with
  | [] => (w, Ok ancestries)
  | project_id :: rest =>
      match ensure_ancestry crm user_email w project_id with
      | (w, Raise e) => (w, Raise e)
      | (w, Ok _) =>
          match _ancestries (scanner w) !! project_id with
          | None => (w, Raise KeyError)
          | Some chain =>
              for_project_ids crm user_email w rest (ancestries ++ [chain])
          end
      end
  end.

(** The comprehension that reads [projects['projects']] on every page. *)
Fixpoint project_id_result (pages : list (option (list string)))
  : result (list (list string)) :=
  match pages with
  | [] => Ok []
  | None :: _ => Raise KeyError
  | Some ids :: pages' => rest ← project_id_result pages'; Ok (ids :: rest)
  end.

(** The project ids [user_email] resolves, in request order. *)
Definition project_ids_of (crm : CloudResourceManager) (user_email : string)
  : result (list string) :=
  _ ← get_delegated_credential crm user_email;
  pages ← get_projects crm user_email;
  per_page ← project_id_result pages;
  Ok (concat per_page).

(** [ExternalProjectAccessScanner._project_ancestries_by_user]. *)
Definition _project_ancestries_by_user (crm : CloudResourceManager)
    (w : World) (user_email : string)
  : World * result (list (list AncestryResource)) :=
  match project_ids_of crm user_email with
  | Raise e => (w, Raise e)
  | Ok project_ids => for_project_ids crm user_email w project_ids []
  end.

(** One row of the inventory, of which the scanner reads
    [inventory_row.get_resource_data()['email']]; [None] is a resource
    data without that key. *)
Record InventoryRow : Type := mkInventoryRow {
  row_email : option string
}.

(** The loop of [_retrieve] over the inventory rows.  The email is read
    before the [try], so a row without one raises [KeyError] out of the
    loop; [KeyError] and [RefreshError] raised by the resolution are the
    two [except] clauses. *)
Fixpoint retrieve_rows (crm : CloudResourceManager) (w : World)
    (rows : list InventoryRow)
    (project_ancestries_by_user : gmap string (list (list AncestryResource)))
  : World * result (gmap string (list (list AncestryResource))) :=
  match rows with
  | [] => (w, Ok project_ancestries_by_user)
  | inventory_row :: rest =>
      match row_email inventory_row with
      | None => (w, Raise KeyError)
      | Some user_email =>
          match _project_ancestries_by_user crm w user_email with
          | (w, Ok ancestries) =>
              retrieve_rows crm w rest
                (<[user_email := ancestries]> project_ancestries_by_user)
          | (w, Raise KeyError) | (w, Raise RefreshError) =>
              retrieve_rows crm w rest project_ancestries_by_user
          | (w, Raise e) => (w, Raise e)
          end
      end
  end.

(** [ExternalProjectAccessScanner._retrieve]. *)
Definition _retrieve (crm : CloudResourceManager) (w : World)
    (rows : list InventoryRow)
  : World * result (gmap string (list (list AncestryResource))) :=
  retrieve_rows crm w rows ∅.

(** The records [_flatten_violations] yields. *)
Module ViolationData.
Record t : Type := mk {
  full_name : string;
  member : string;
  rule_ancestor : string
}.
End ViolationData.

Module FlatViolation.
Record t : Type := mk {
  resource_id : string;
  resource_type : ResourceType;
  full_name : string;
  rule_index : nat;
  rule_name : option string;
  violation_type : string;
  violation_data : ViolationData.t;
  resource_data : string
}.
End FlatViolation.

(** The body of the loop of [_flatten_violations] for one violation. *)
Definition flatten_violation (violation : RuleViolation.t)
  : result FlatViolation.t :=
  rule_ancestor_name ← getattr_name (RuleViolation.rule_ancestor violation);
  let violation_data :=
    {| ViolationData.full_name := RuleViolation.full_name violation;
       ViolationData.member := RuleViolation.member violation;
       ViolationData.rule_ancestor := rule_ancestor_name |} in
  Ok {| FlatViolation.resource_id := RuleViolation.resource_id violation;
        FlatViolation.resource_type := RuleViolation.resource_type violation;
        FlatViolation.full_name := RuleViolation.full_name violation;
        FlatViolation.rule_index := RuleViolation.rule_index violation;
        FlatViolation.rule_name := RuleViolation.rule_name violation;
        FlatViolation.violation_type :=
          RuleViolation.violation_type violation;
        FlatViolation.violation_data := violation_data;
        FlatViolation.resource_data :=
          RuleViolation.resource_data violation |}.

(** [ExternalProjectAccessScanner._flatten_violations], a generator. *)
Definition _flatten_violations (violations : list RuleViolation.t)
  : gen FlatViolation.t :=
  map flatten_violation violations.

(** ** Evaluation and output by the scanner *)

(** The inner loop of [_find_violations] over the chains of one identity;
    [all_violations.extend(violations)] consumes the generator. *)
Fixpoint for_project_ancestries (engine : ExternalProjectAccessRulesEngine)
    (user_mail : string) (project_ancestries : list (list AncestryResource))
    (all_violations : list RuleViolation.t)
  : ExternalProjectAccessRulesEngine * result (list RuleViolation.t) :=
  match project_ancestries with
  | [] => (engine, Ok all_violations)
  | project_ancestry :: rest =>
      match find_policy_violations engine user_mail project_ancestry false with
      | (engine, Raise e) => (engine, Raise e)
      | (engine, Ok violations) =>
          match consume violations with
          | Raise e => (engine, Raise e)
          | Ok vs =>
              for_project_ancestries engine user_mail rest
                (all_violations ++ vs)
          end
      end
  end.

(** The outer loop of [_find_violations] over the items of the dict. *)
Fixpoint for_ancestries_by_user (engine : ExternalProjectAccessRulesEngine)
    (items : list (string * list (list AncestryResource)))
    (all_violations : list RuleViolation.t)
  : ExternalProjectAccessRulesEngine * result (list RuleViolation.t) :=
  match items with
  | [] => (engine, Ok all_violations)
  | (user_mail, project_ancestries) :: rest =>
      match for_project_ancestries engine user_mail project_ancestries
              all_violations with
      | (engine, Raise e) => (engine, Raise e)
      | (engine, Ok all_violations) =>
          for_ancestries_by_user engine rest all_violations
      end
  end.

(** [ExternalProjectAccessScanner._find_violations]; the items of the dict
    come in the order of [map_to_list], Python fixing none. *)
Definition _find_violations (self : ExternalProjectAccessScanner)
    (ancestries_by_user : gmap string (list (list AncestryResource)))
  : ExternalProjectAccessScanner * result (list RuleViolation.t) :=
  let '(engine, all_violations) :=
    for_ancestries_by_user (rules_engine self)
      (map_to_list ancestries_by_user) [] in
  ({| rules_engine := engine; _ancestries := _ancestries self |},
   all_violations).

(** ** The base scanner *)

(** One entry of [scanner_configs['scanners']]: a dict read with
    [config['name']] and [config['weekdays']]; [None] is an absent key. *)
Record ScannerEntry : Type := mkScannerEntry {
  entry_name : option string;
  entry_weekdays : option (list string)
}.

(** [scanner_configs], read with [scanner_configs['scanners']]. *)
Record ScannerConfigs : Type := mkScannerConfigs {
  scanners : option (list ScannerEntry)
}.

(** What the properties of [BaseScanner] read of the object: the name of
    its class and [self.scanner_configs]. *)
Record BaseScanner : Type := mkBaseScanner {
  class_name : string;
  scanner_configs : ScannerConfigs
}.

(** [d[key]] on a dict whose key may be absent. *)
Definition dict_get {A : Type} (value : option A) : result A :=
  match value with
  | Some a => Ok a
  | None => Raise KeyError
  end.

(** [BaseScanner.scanner_name].  [requirements_map] is the items of
    [scanner_requirements_map.REQUIREMENTS_MAP], each key with the
    ['class_name'] of its value, in iteration order; that module is not
    part of the sources at hand. *)
Definition scanner_name (requirements_map : list (string * string))
    (self : BaseScanner) : result string :=
  getitem
    (map fst
       (List.filter (fun kv => String.eqb (snd kv) (class_name self))
          requirements_map))
    0.

(** The comprehension of [config]: for every entry, [config['name']] and
    then [self.scanner_name] are evaluated. *)
Fixpoint config_matches (requirements_map : list (string * string))
    (self : BaseScanner) (entries : list ScannerEntry)
  : result (list ScannerEntry) :=
  match entries with
  | [] => Ok []
  | config :: rest =>
      name ← dict_get (entry_name config);
      scanner_name ← scanner_name requirements_map self;
      matches ← config_matches requirements_map self rest;
      Ok (if String.eqb name scanner_name then config :: matches
          else matches)
  end.

(** [BaseScanner.config]; [Ok None] is the value [None]. *)
Definition config (requirements_map : list (string * string))
    (self : BaseScanner) : result (option ScannerEntry) :=
  entries ← dict_get (scanners (scanner_configs self));
  config ← config_matches requirements_map self entries;
  match config with
  | [] => Ok None
  | first :: _ => Ok (Some first)
  end.

(** [list(calendar.day_name)]. *)
Definition day_name : list string :=
  ["Monday"; "Tuesday"; "Wednesday"; "Thursday"; "Friday"; "Saturday";
   "Sunday"].

(** [BaseScanner.weekdays]: the [try] covers [self.config] and the
    subscript; subscripting [None] raises [TypeError]. *)
Definition weekdays (requirements_map : list (string * string))
    (self : BaseScanner) : result (list string) :=
  let attempt :=
    config ← config requirements_map self;
    match config with
    | None => Raise TypeError
    | Some entry => dict_get (entry_weekdays entry)
    end in
  match attempt with
  | Raise KeyError => Ok day_name
  | outcome => outcome
  end.

(** [BaseScanner.run_today]; [today] is what
    [datetime.datetime.now().strftime('%A')] returns. *)
Definition run_today (requirements_map : list (string * string))
    (self : BaseScanner) (today : string) : result bool :=
  days ← weekdays requirements_map self;
  Ok (existsb (String.eqb today) days).

(** * Notions used in the statements *)

(** Following the spec's words: [organizations/<digits>] or
    [folders/<digits>], the whole string. *)
Definition all_digits (s : string) : bool :=
  forallb is_digit (list_ascii_of_string s).

Definition ancestor_form (s : string) : Prop :=
  exists ds : string,
    ds <> "" /\ all_digits ds = true /\
    (s = "organizations/" +:+ ds \/ s = "folders/" +:+ ds).

Definition nl : string := String newline EmptyString.

(** Following the spec's words (section 3, Violation): the violation
    of [rule] by the chain [chain] of [member], whose leaf is [leaf]. *)
Definition violation_of (rule : Rule) (member : string)
    (leaf : AncestryResource) (chain : list AncestryResource)
  : RuleViolation.t :=
  {| RuleViolation.resource_type := PROJECT;
     RuleViolation.resource_id := r_id leaf;
     RuleViolation.rule_name := rule_name rule;
     RuleViolation.rule_index := rule_index rule;
     RuleViolation.rule_ancestor := PyStr (r_name (rules rule));
     RuleViolation.full_name := r_name leaf;
     RuleViolation.violation_type := "EXTERNAL_PROJECT_ACCESS_VIOLATION";
     RuleViolation.member := member;
     RuleViolation.resource_data := String.concat "," (map r_name chain) |}.

(** What each item of the map contributes for a chain. *)
Definition contribution (member : string) (leaf : AncestryResource)
    (chain : list AncestryResource) (kr : AncestryResource * Rule)
  : list RuleViolation.t :=
  if contains chain (fst kr) then []
  else [violation_of (snd kr) member leaf chain].

(** The (type, id) pair under which a resource is a key. *)
Definition key_of (r : AncestryResource) : ResourceType * string :=
  (r_type r, r_id r).

(** What holds of every rule book the code builds: the keys are distinct
    as (type, id) pairs, and each rule sits under its own ancestor. *)
Definition book_wf (m : list (AncestryResource * Rule)) : Prop :=
  NoDup (map (fun kr => key_of (fst kr)) m) /\
  forall kr, In kr m -> rules (snd kr) = fst kr.

(** The rule the definitions from index [i] on give to [key]: that of the
    first of them whose ancestor is [key], by type and id. *)
Fixpoint first_rule_for (key : AncestryResource) (i : nat)
    (rule_defs : list RuleDef) : option Rule :=
  match rule_defs with
  | [] => None
  | rule_def :: rest =>
      match process_rule rule_def i with
      | Ok ancestor =>
          if resource_eqb key ancestor then
            Some {| rule_name := def_name rule_def; rule_index := i;
                    rules := ancestor |}
          else first_rule_for key (S i) rest
      | Raise _ => None
      end
  end.

Abbreviation cache w := (_ancestries (scanner w)).

(** [create_resource] applied to one element of an answer. *)
Definition resource_of (d : AncestorDescriptor) : AncestryResource :=
  create_resource (resourceId_id d) (resourceId_type d).

(** [grows w w']: from [w] to [w'] the cache has kept every entry it had,
    and the requests sent in between were each for a project that the
    cache of [w] did not hold and that the cache of [w'] holds, no project
    being requested twice. *)
Definition grows (w w' : World) : Prop :=
  exists l : list string,
    remote_lookups w' = remote_lookups w ++ l /\
    NoDup l /\
    (forall p, p ∈ l -> cache w !! p = None /\ is_Some (cache w' !! p)) /\
    (forall p c, cache w !! p = Some c -> cache w' !! p = Some c).

(** Every chain of the result map is the one the cache holds for its
    project. *)
Definition chains_from_cache (crm : CloudResourceManager) (w : World)
    (m : gmap string (list (list AncestryResource))) : Prop :=
  forall user_email chains,
    m !! user_email = Some chains ->
    exists project_ids,
      project_ids_of crm user_email = Ok project_ids /\
      Forall2 (fun p c => cache w !! p = Some c) project_ids chains.

(** The invariant of a scanner: no project has been requested twice, and
    the cache holds an entry for every project requested. *)
Definition lookups_once (w : World) : Prop :=
  NoDup (remote_lookups w) /\
  forall p, p ∈ remote_lookups w -> is_Some (cache w !! p).

(** [reaches crm w w']: [w'] is [w] after any number of calls of
    [_project_ancestries_by_user], for any identities and whatever their
    outcomes. *)
Inductive reaches (crm : CloudResourceManager) : World -> World -> Prop :=
| reaches_refl (w : World) : reaches crm w w
| reaches_step (w w1 w2 : World) (user_email : string)
    (r : result (list (list AncestryResource))) :
    _project_ancestries_by_user crm w user_email = (w1, r) ->
    reaches crm w1 w2 ->
    reaches crm w w2.

(** What evaluating one chain adds to the violations of a scan when it
    does not fail: nothing for the empty chain, else one violation for
    each rule whose ancestor is not in the chain. *)
Definition violations_for (book : ExternalProjectAccessRuleBook)
    (member : string) (chain : list AncestryResource)
  : list RuleViolation.t :=
  match chain with
  | [] => []
  | leaf :: _ =>
      map (fun rule => violation_of rule member leaf chain)
        (rules_violated book chain)
  end.

(** Some chain of the list is empty. *)
Definition has_empty_chain (chains : list (list AncestryResource)) : bool :=
  existsb (fun chain => match chain with [] => true | _ :: _ => false end)
    chains.

(** The strings [validate_ancestor] lets through. *)
Definition accepted_ancestor (a : string) : Prop :=
  ancestor_form a \/ exists s', a = s' +:+ nl /\ ancestor_form s'.

(** The rule book holds at least one rule. *)
Definition book_has_rule (book : ExternalProjectAccessRuleBook) : bool :=
  match resource_rules_map book with
  | [] => false
  | _ :: _ => true
  end.

(** The record made of a violation whose rule-ancestor field is the
    resource [ancestor]. *)
Definition flattened (violation : RuleViolation.t) (ancestor : AncestryResource)
    (record : FlatViolation.t) : Prop :=
  FlatViolation.resource_id record = RuleViolation.resource_id violation /\
  FlatViolation.resource_type record = RuleViolation.resource_type violation /\
  FlatViolation.full_name record = RuleViolation.full_name violation /\
  FlatViolation.rule_index record = RuleViolation.rule_index violation /\
  FlatViolation.rule_name record = RuleViolation.rule_name violation /\
  FlatViolation.violation_type record
  = RuleViolation.violation_type violation /\
  FlatViolation.resource_data record
  = RuleViolation.resource_data violation /\
  ViolationData.full_name (FlatViolation.violation_data record)
  = RuleViolation.full_name violation /\
  ViolationData.member (FlatViolation.violation_data record)
  = RuleViolation.member violation /\
  ViolationData.rule_ancestor (FlatViolation.violation_data record)
  = r_name ancestor.

(** The entry is named, and its name is [name]. *)
Definition entry_named (name : string) (entry : ScannerEntry) : bool :=
  match entry_name entry with
  | Some n => String.eqb n name
  | None => false
  end.

(** Every request of the log has been answered into the cache: the entry
    of the project requested at position [k] is made of what the remote
    service yielded to that request, sent by some identity after the [k]
    requests before it. *)
Definition answered (crm : CloudResourceManager) (w : World) : Prop :=
  forall k P,
    remote_lookups w !! k = Some P ->
    exists user_email,
      cache w !! P
      = Some (map resource_of
                (fst (get_project_ancestry crm (take k (remote_lookups w))
                        user_email P))).

(** The inventory rows that carry the given emails. *)
Definition inventory_of (emails : list string) : list InventoryRow :=
  map (fun email => mkInventoryRow (Some email)) emails.

(** [validate_ancestor] on the ancestor of an entry as loaded: what
    [add_rule] raises for that entry, if anything, before it adds a
    rule. *)
Definition validate_loaded (entry : LoadedRule) (rule_index : nat)
  : result unit :=
  match entry with
  | WellTyped rule_def => validate_ancestor (def_ancestor rule_def) rule_index
  | IllTyped _ false =>
      Raise (InvalidRulesSchemaError (missing_ancestor_msg rule_index))
  | IllTyped _ true => Raise TypeError
  end.

(** ** The cases of the spec, as data *)

(** The rules of the allow and deny cases: one rule, organization 567890. *)
Definition example_rules : option RuleDefs :=
  Some (mkRuleDefs
          (Some [mkRuleDef (Some "default") (Some "organizations/567890")])).

Definition example_book : ExternalProjectAccessRuleBook :=
  {| resource_rules_map :=
       [(create_resource "567890" ORGANIZATION,
         {| rule_name := Some "default"; rule_index := 0;
            rules := create_resource "567890" ORGANIZATION |})] |}.

Definition example_engine : ExternalProjectAccessRulesEngine :=
  {| rules_file := example_rules; rule_book := Some example_book |}.

Definition allowed_chain : list AncestryResource :=
  [create_resource "13579" PROJECT; create_resource "24680" FOLDER;
   create_resource "567890" ORGANIZATION].

Definition denied_chain : list AncestryResource :=
  [create_resource "13579" PROJECT; create_resource "24680" FOLDER;
   create_resource "1357924680" ORGANIZATION].

(** A resource manager with one identity whose credential is expired, one
    without projects, and two projects for everybody else; the fetch for
    [test_project_2] yields the project and then fails. *)
Definition example_crm : CloudResourceManager :=
  {| get_delegated_credential := fun user_email =>
       if String.eqb user_email "expired@example.com"
       then Raise RefreshError else Ok tt;
     get_projects := fun user_email =>
       if String.eqb user_email "nobody@example.com" then Ok [None]
       else Ok [Some ["test_project_1"]; Some ["test_project_2"]];
     get_project_ancestry := fun _ _ project_id =>
       if String.eqb project_id "test_project_2"
       then ([mkDescriptor "test_project_2" PROJECT], Some RefreshError)
       else ([mkDescriptor project_id PROJECT;
              mkDescriptor "1234567" ORGANIZATION], None) |}.

Definition example_world : World :=
  mkWorld (mkScanner example_engine ∅) [].

(** A resource manager where everybody sees the one project
    [shared_project]; its first ancestry request fails before yielding
    anything, any later one would be answered in full. *)
Definition flaky_crm : CloudResourceManager :=
  {| get_delegated_credential := fun _ => Ok tt;
     get_projects := fun _ => Ok [Some ["shared_project"]];
     get_project_ancestry := fun history _ project_id =>
       match history with
       | [] => ([], Some RefreshError)
       | _ :: _ => ([mkDescriptor project_id PROJECT;
                     mkDescriptor "1234567" ORGANIZATION], None)
       end |}.

(** A registry and a configuration with two entries for the scanner. *)
Definition example_requirements_map : list (string * string) :=
  [("iam_policy", "IamPolicyScanner");
   ("external_project_access", "ExternalProjectAccessScanner")].

Definition example_base_scanner : BaseScanner :=
  {| class_name := "ExternalProjectAccessScanner";
     scanner_configs :=
       {| scanners :=
            Some [mkScannerEntry (Some "iam_policy") None;
                  mkScannerEntry (Some "external_project_access")
                    (Some ["Monday"; "Thursday"]);
                  mkScannerEntry (Some "external_project_access")
                    (Some ["Sunday"])] |} |}.

(** A resource manager where everybody sees the one project
    [shared_project]; the fetch of its ancestry raises the refresh error
    at once when [user1@example.com] asks, and is answered in full to
    anybody else. *)
Definition refreshing_crm : CloudResourceManager :=
  {| get_delegated_credential := fun _ => Ok tt;
     get_projects := fun _ => Ok [Some ["shared_project"]];
     get_project_ancestry := fun _ user_email project_id =>
       if String.eqb user_email "user1@example.com"
       then ([], Some RefreshError)
       else ([mkDescriptor project_id PROJECT;
              mkDescriptor "1234567" ORGANIZATION], None) |}.

(** * Properties *)

(** ** Resource equality *)

Lemma ResourceType_eqb_eq (a b : ResourceType) :
  ResourceType_eqb a b = true <-> a = b.
Proof. destruct a, b; simpl; split; intros H; congruence. Qed.

Lemma resource_eqb_spec (a b : AncestryResource) :
  resource_eqb a b = true <-> r_type a = r_type b /\ r_id a = r_id b.
Proof.
  unfold resource_eqb. rewrite andb_true_iff, ResourceType_eqb_eq.
  rewrite String.eqb_eq. reflexivity.
Qed.

Lemma resource_eqb_refl (a : AncestryResource) : resource_eqb a a = true.
Proof. apply resource_eqb_spec. split; reflexivity. Qed.

Lemma resource_eqb_sym (a b : AncestryResource) :
  resource_eqb a b = resource_eqb b a.
Proof.
  apply eq_true_iff_eq. rewrite !resource_eqb_spec.
  split; intros [H1 H2]; split; congruence.
Qed.

Lemma resource_eqb_trans (a b c : AncestryResource) :
  resource_eqb a b = true -> resource_eqb b c = true ->
  resource_eqb a c = true.
Proof.
  rewrite !resource_eqb_spec. intros [H1 H2] [H3 H4]. split; congruence.
Qed.

Lemma contains_spec (chain : list AncestryResource) (x : AncestryResource) :
  contains chain x = true <->
  exists e, In e chain /\ r_type x = r_type e /\ r_id x = r_id e.
Proof.
  unfold contains. rewrite existsb_exists.
  split; intros (e & He & H); exists e; split; trivial;
    apply resource_eqb_spec; exact H.
Qed.

(** ** The ancestor pattern *)

Lemma is_digit_newline : is_digit newline = false.
Proof. reflexivity. Qed.

Lemma at_eol_spec (s : string) : at_eol s = true <-> s = "" \/ s = nl.
Proof.
  destruct s as [|c [|c' s']]; simpl.
  - split; [now left | reflexivity].
  - rewrite Ascii.eqb_eq. unfold nl. split.
    + intros ->. now right.
    + intros [H|H]; [discriminate | congruence].
  - split; [discriminate | intros [H|H]; discriminate].
Qed.

(** What [\d*$] accepts. *)
Lemma digits_star_eol (s : string) :
  digits_star (match_seq [Eol] false) s = true <->
  exists ds, all_digits ds = true /\ (s = ds \/ s = ds +:+ nl).
Proof.
  induction s as [|c s IH].
  - simpl. split; [|reflexivity]. intros _. exists "". split; [reflexivity|].
    now left.
  - cbn [digits_star]. destruct (is_digit c) eqn:Hc.
    + rewrite orb_true_iff, IH. split.
      * intros [(ds & Hds & Hs) | Hk].
        -- exists (String c ds). split.
           ++ unfold all_digits in *. simpl. now rewrite Hc.
           ++ destruct Hs as [-> | ->]; [now left | now right].
        -- simpl in Hk. rewrite andb_true_r in Hk.
           destruct s; [|discriminate].
           apply Ascii.eqb_eq in Hk. subst c.
           rewrite is_digit_newline in Hc. discriminate.
      * intros (ds & Hds & Hs). left. destruct ds as [|d ds].
        -- destruct Hs as [Hs | Hs]; [discriminate|].
           unfold nl in Hs. simpl in Hs. injection Hs as -> ->.
           rewrite is_digit_newline in Hc. discriminate.
        -- exists ds. unfold all_digits in Hds. simpl in Hds.
           apply andb_true_iff in Hds as [_ Hds]. split; [exact Hds|].
           destruct Hs as [Hs | Hs]; simpl in Hs; injection Hs as -> ->;
             [now left | now right].
    + change (match_seq [Eol] false (String c s))
        with (at_eol (String c s) && true).
      rewrite andb_true_r, at_eol_spec. split.
      * intros [H | H]; [discriminate|]. exists "". split; [reflexivity|].
        right. exact H.
      * intros (ds & Hds & Hs). destruct ds as [|d ds].
        -- destruct Hs as [Hs | Hs]; [discriminate | now right].
        -- unfold all_digits in Hds. simpl in Hds.
           apply andb_true_iff in Hds as [Hd _].
           destruct Hs as [Hs | Hs]; simpl in Hs; injection Hs as -> ->;
             congruence.
Qed.

(** What [\d+$] accepts. *)
Lemma digits1_eol (s : string) :
  match_seq [Digits1; Eol] false s = true <->
  exists ds, ds <> "" /\ all_digits ds = true /\ (s = ds \/ s = ds +:+ nl).
Proof.
  destruct s as [|c s].
  - simpl. split; [discriminate|]. intros (ds & Hne & _ & [H | H]).
    + congruence.
    + destruct ds; [congruence | discriminate].
  - cbn [match_seq]. rewrite andb_true_iff, digits_star_eol. split.
    + intros [Hc (ds & Hds & Hs)]. exists (String c ds). split; [discriminate|].
      split.
      * unfold all_digits in *. simpl. now rewrite Hc.
      * destruct Hs as [-> | ->]; [now left | now right].
    + intros (ds & Hne & Hds & Hs). destruct ds as [|d ds]; [congruence|].
      unfold all_digits in Hds. simpl in Hds.
      apply andb_true_iff in Hds as [Hd Hds].
      destruct Hs as [Hs | Hs]; simpl in Hs; injection Hs as -> ->;
        (split; [exact Hd | exists ds; split; [exact Hds | tauto]]).
Qed.

Lemma strip_literal_spec (lit s rest : string) :
  strip_literal lit s = Some rest <-> s = lit +:+ rest.
Proof.
  revert s. induction lit as [|p lit IH]; intros s; simpl.
  - split; [intros [= ->]; reflexivity | intros ->; reflexivity].
  - destruct s as [|c s]; [split; discriminate|].
    destruct (Ascii.eqb p c) eqn:E.
    + apply Ascii.eqb_eq in E. subst c. rewrite IH. split.
      * intros ->. reflexivity.
      * intros [= ->]. reflexivity.
    + apply Ascii.eqb_neq in E. split; [discriminate|].
      intros [= -> _]. congruence.
Qed.

(** What one alternative [^lit\d+$] accepts. *)
Lemma alternative_spec (lit s : string) :
  match_seq [Bol; Lit lit; Digits1; Eol] true s = true <->
  exists ds, ds <> "" /\ all_digits ds = true /\
             (s = lit +:+ ds \/ s = lit +:+ ds +:+ nl).
Proof.
  change (match_seq [Bol; Lit lit; Digits1; Eol] true s)
    with (match strip_literal lit s with
          | Some rest => match_seq [Digits1; Eol] false rest
          | None => false
          end).
  destruct (strip_literal lit s) as [rest|] eqn:E.
  - apply strip_literal_spec in E. subst s.
    rewrite digits1_eol. split.
    + intros (ds & H1 & H2 & [-> | ->]); exists ds; tauto.
    + intros (ds & H1 & H2 & H3). exists ds. split; [exact H1|].
      split; [exact H2|].
      destruct H3 as [H3 | H3]; apply String.app_inj in H3; tauto.
  - split; [discriminate|]. intros (ds & _ & _ & [H | H]);
      apply strip_literal_spec in H; congruence.
Qed.

(** What [ancestor_pattern.match] accepts: the two forms, each also with
    one newline after the digits. *)
Lemma re_match_ancestor_pattern (s : string) :
  re_match ancestor_pattern s = true <->
  ancestor_form s \/ exists s', s = s' +:+ nl /\ ancestor_form s'.
Proof.
  unfold re_match, ancestor_pattern. cbn [existsb].
  rewrite orb_false_r, orb_true_iff, !alternative_spec.
  unfold ancestor_form. split.
  - intros [(ds & H1 & H2 & [-> | ->]) | (ds & H1 & H2 & [-> | ->])].
    + left. exists ds. tauto.
    + right. exists ("organizations/" +:+ ds). split; [reflexivity|].
      exists ds. tauto.
    + left. exists ds. tauto.
    + right. exists ("folders/" +:+ ds). split; [reflexivity|].
      exists ds. tauto.
  - intros [(ds & H1 & H2 & [-> | ->]) | (s' & -> & ds & H1 & H2 & [-> | ->])].
    + left. exists ds. tauto.
    + right. exists ds. tauto.
    + left. exists ds. split; [exact H1|]. split; [exact H2|]. right.
      reflexivity.
    + right. exists ds. split; [exact H1|]. split; [exact H2|]. right.
      reflexivity.
Qed.

(** ** Validation of the ancestor of a rule *)

Lemma ancestor_form_nonempty (s : string) : ancestor_form s -> s <> "".
Proof. intros (ds & _ & _ & [-> | ->]); discriminate. Qed.

Lemma validate_ancestor_ok_iff (a : string) (rule_index : nat) :
  validate_ancestor (Some a) rule_index = Ok tt <->
  ancestor_form a \/ exists s', a = s' +:+ nl /\ ancestor_form s'.
Proof.
  rewrite <- re_match_ancestor_pattern. unfold validate_ancestor.
  destruct a as [|c a].
  - simpl. split; discriminate.
  - change ((String.length (String c a) <? 1)%nat) with false. cbv iota.
    destruct (re_match ancestor_pattern (String c a)); split;
      congruence.
Qed.

(** Whatever [validate_ancestor] raises is the schema error, with one of
    the two messages, formatted with the index of the rule. *)
Lemma validate_ancestor_raises (ancestor : option string) (rule_index : nat)
    (e : exn) :
  validate_ancestor ancestor rule_index = Raise e ->
  e = InvalidRulesSchemaError (missing_ancestor_msg rule_index) \/
  e = InvalidRulesSchemaError (bad_ancestor_msg rule_index).
Proof.
  unfold validate_ancestor. destruct ancestor as [a|].
  - destruct (String.length a <? 1)%nat; [intros [= <-]; now left|].
    destruct (re_match ancestor_pattern a); [discriminate|].
    intros [= <-]. now right.
  - intros [= <-]. now left.
Qed.

(** The claim holds for every string that does not end with a newline:
    the schema error is raised exactly when the ancestor is missing, empty
    or not of one of the two forms. *)
Lemma validate_ancestor_raises_iff (ancestor : option string)
    (rule_index : nat) :
  (forall s', ancestor <> Some (s' +:+ nl)) ->
  (exists msg, validate_ancestor ancestor rule_index
               = Raise (InvalidRulesSchemaError msg)) <->
  (ancestor = None \/ ancestor = Some "" \/
   exists a, ancestor = Some a /\ ~ ancestor_form a).
Proof.
  intros Hnl. destruct ancestor as [a|].
  - destruct (validate_ancestor (Some a) rule_index) as [[]|e] eqn:E.
    + apply validate_ancestor_ok_iff in E. split.
      * intros (msg & H). discriminate.
      * intros [H | [H | (a' & [= <-] & H)]]; try discriminate.
        -- injection H as ->. destruct E as [E | (s' & E & _)].
           ++ now apply ancestor_form_nonempty in E.
           ++ destruct s'; discriminate.
        -- destruct E as [E | (s' & -> & _)]; [tauto|].
           now destruct (Hnl s').
    + split.
      * intros _. right. destruct a as [|c a]; [now left|]. right.
        exists (String c a). split; [reflexivity|]. intros Hform.
        assert (validate_ancestor (Some (String c a)) rule_index = Ok tt)
          as H by (apply validate_ancestor_ok_iff; now left).
        congruence.
      * intros _. destruct (validate_ancestor_raises _ _ _ E) as [-> | ->];
          eexists; reflexivity.
  - split.
    + intros _. now left.
    + intros _. eexists. reflexivity.
Qed.

(** C3, where the code departs from the claim: an ancestor made of a valid
    form followed by a newline is not wholly of the form
    [organizations/<digits>] or [folders/<digits>], and yet
    [validate_ancestor] returns without raising, because [$] also holds
    before a final newline. *)
Theorem validate_ancestor_accepts_trailing_newline :
  validate_ancestor (Some ("organizations/567890" +:+ nl)) 0 = Ok tt /\
  ~ ancestor_form ("organizations/567890" +:+ nl).
Proof.
  split; [reflexivity|].
  intros (ds & _ & Hds & [H | H]).
  - change ("organizations/567890" +:+ nl)
      with ("organizations/" +:+ ("567890" +:+ nl)) in H.
    apply String.app_inj in H. subst ds. discriminate Hds.
  - discriminate H.
Qed.

(** The examples of the claim. *)
Example validate_ancestor_examples :
  validate_ancestor (Some "organizations/567890") 0 = Ok tt /\
  validate_ancestor (Some "folders/42") 1 = Ok tt /\
  validate_ancestor (Some "policy/12345") 2
    = Raise (InvalidRulesSchemaError (bad_ancestor_msg 2)) /\
  validate_ancestor (Some "") 3
    = Raise (InvalidRulesSchemaError (missing_ancestor_msg 3)) /\
  validate_ancestor None 4
    = Raise (InvalidRulesSchemaError (missing_ancestor_msg 4)).
Proof. repeat split; reflexivity. Qed.

(** ** Evaluation of a chain *)

Lemma find_policy_violations_reuse (self : ExternalProjectAccessRulesEngine)
    (book : ExternalProjectAccessRuleBook) (member : string)
    (chain : list AncestryResource) :
  rule_book self = Some book ->
  find_policy_violations self member chain false
  = (self, Ok (concat (map (fun rule => policy_violation rule member chain)
                         (rules_violated book chain)))).
Proof.
  intros H. unfold find_policy_violations. rewrite H.
  cbn [is_None orb]. rewrite H. reflexivity.
Qed.

Lemma find_policy_violations_ok (self self' : ExternalProjectAccessRulesEngine)
    (member : string) (chain : list AncestryResource) (force_rebuild : bool)
    (g : gen RuleViolation.t) :
  find_policy_violations self member chain force_rebuild = (self', Ok g) ->
  self' = self /\ force_rebuild = false /\
  exists book, rule_book self = Some book.
Proof.
  unfold find_policy_violations.
  destruct (rule_book self) as [book|] eqn:Hb.
  - destruct force_rebuild; simpl.
    + discriminate.
    + rewrite Hb. intros [= <- _]. eauto.
  - simpl. discriminate.
Qed.

Lemma consume_policy_violations (member : string) (leaf : AncestryResource)
    (rest : list AncestryResource) (violated : list Rule) :
  consume (concat (map (fun rule => policy_violation rule member
                                      (leaf :: rest)) violated))
  = Ok (map (fun rule => violation_of rule member leaf (leaf :: rest))
          violated).
Proof.
  induction violated as [|rule violated IH]; [reflexivity|].
  cbn [map concat]. unfold policy_violation at 1.
  cbn [getitem lookup list_lookup mbind result_bind app consume].
  rewrite IH. reflexivity.
Qed.

Lemma consume_policy_violations_empty_chain (member : string) (rule : Rule)
    (violated : list Rule) :
  consume (concat (map (fun rule => policy_violation rule member [])
                     (rule :: violated)))
  = Raise IndexError.
Proof. reflexivity. Qed.

Lemma rules_violated_contribution (book : ExternalProjectAccessRuleBook)
    (member : string) (leaf : AncestryResource)
    (chain : list AncestryResource) :
  map (fun rule => violation_of rule member leaf chain)
    (rules_violated book chain)
  = flat_map (contribution member leaf chain) (resource_rules_map book).
Proof.
  unfold rules_violated, contribution.
  induction (resource_rules_map book) as [|kr m IH]; [reflexivity|].
  cbn [List.filter flat_map]. destruct (contains chain (fst kr)); simpl.
  - exact IH.
  - now rewrite IH.
Qed.

(** C1.  With a rule book in place, evaluating a non-empty chain succeeds,
    and the violations obtained are, item by item of the rule book, one
    violation when the ancestor of the rule matches no element of the
    chain by type and id, and none when it matches one.  So a chain
    holding every ancestor gives no violation, and a chain holding none
    of the ancestors of a book of three rules gives three. *)
Theorem find_policy_violations_one_per_absent_ancestor
    (self : ExternalProjectAccessRulesEngine)
    (book : ExternalProjectAccessRuleBook) (member : string)
    (leaf : AncestryResource) (rest : list AncestryResource) :
  rule_book self = Some book ->
  let chain := leaf :: rest in
  exists g vs,
    find_policy_violations self member chain false = (self, Ok g) /\
    consume g = Ok vs /\
    vs = flat_map (contribution member leaf chain) (resource_rules_map book) /\
    (forall kr, contribution member leaf chain kr
                = if existsb (fun e => ResourceType_eqb (r_type (fst kr)) (r_type e)
                                       && String.eqb (r_id (fst kr)) (r_id e))
                       chain
                  then [] else [violation_of (snd kr) member leaf chain]) /\
    ((forall kr, In kr (resource_rules_map book) ->
                 contains chain (fst kr) = true) -> vs = []) /\
    ((forall kr, In kr (resource_rules_map book) ->
                 contains chain (fst kr) = false) ->
     length vs = length (resource_rules_map book)) /\
    (length (resource_rules_map book) = 3 ->
     (forall kr, In kr (resource_rules_map book) ->
                 contains chain (fst kr) = false) ->
     length vs = 3).
Proof.
  intros Hbook chain. eexists. eexists.
  split; [apply find_policy_violations_reuse; exact Hbook|].
  split; [apply consume_policy_violations|].
  rewrite rules_violated_contribution.
  split; [reflexivity|]. split; [reflexivity|].
  assert (forall m : list (AncestryResource * Rule),
            (forall kr, In kr m -> contains chain (fst kr) = false) ->
            length (flat_map (contribution member leaf chain) m) = length m)
    as Hnone.
  { induction m as [|kr m IH]; [reflexivity|]. intros H.
    cbn [flat_map]. rewrite length_app, IH by (intros; apply H; now right).
    unfold contribution at 1. rewrite (H kr) by now left. reflexivity. }
  split; [|split].
  - induction (resource_rules_map book) as [|kr m IH]; [reflexivity|].
    intros H. cbn [flat_map]. unfold contribution at 1.
    rewrite (H kr) by now left. apply IH. intros; apply H; now right.
  - apply Hnone.
  - intros H3 H. rewrite Hnone by exact H. exact H3.
Qed.

Lemma In_rules_violated (book : ExternalProjectAccessRuleBook)
    (chain : list AncestryResource) (rule : Rule) :
  In rule (rules_violated book chain) ->
  exists key, In (key, rule) (resource_rules_map book) /\
              contains chain key = false.
Proof.
  unfold rules_violated. rewrite in_map_iff.
  intros ([key rule'] & Heq & Hin). simpl in Heq. subst rule'.
  apply filter_In in Hin as [Hin Hc]. exists key. split; [exact Hin|].
  simpl in Hc. now apply negb_true_iff in Hc.
Qed.

(** C4.  Every violation obtained for a member and a chain names the leaf
    [chain[0]] and the member: the type is PROJECT, the id and the full
    name are those of the leaf, the violation type is the fixed string, the
    rule name and index are those of a rule of the book whose ancestor is
    not in the chain, the rule-ancestor field holds the name of the
    ancestor of that rule, and the resource data is the names of the chain
    elements, in order, joined by commas. *)
Theorem violation_attributed_to_leaf_and_member
    (self self' : ExternalProjectAccessRulesEngine) (member : string)
    (leaf : AncestryResource) (rest : list AncestryResource)
    (force_rebuild : bool) (g : gen RuleViolation.t)
    (vs : list RuleViolation.t) (v : RuleViolation.t) :
  find_policy_violations self member (leaf :: rest) force_rebuild
  = (self', Ok g) ->
  consume g = Ok vs ->
  In v vs ->
  exists book key rule,
    rule_book self = Some book /\
    In (key, rule) (resource_rules_map book) /\
    contains (leaf :: rest) key = false /\
    RuleViolation.resource_type v = PROJECT /\
    RuleViolation.resource_id v = r_id leaf /\
    RuleViolation.full_name v = r_name leaf /\
    RuleViolation.violation_type v = "EXTERNAL_PROJECT_ACCESS_VIOLATION" /\
    RuleViolation.member v = member /\
    RuleViolation.rule_name v = rule_name rule /\
    RuleViolation.rule_index v = rule_index rule /\
    RuleViolation.rule_ancestor v = PyStr (r_name (rules rule)) /\
    RuleViolation.resource_data v
    = String.concat "," (map r_name (leaf :: rest)).
Proof.
  intros Hfind Hg Hv.
  destruct (find_policy_violations_ok _ _ _ _ _ _ Hfind)
    as (-> & -> & book & Hbook).
  rewrite (find_policy_violations_reuse _ _ _ _ Hbook) in Hfind.
  injection Hfind as <-. rewrite consume_policy_violations in Hg.
  injection Hg as <-. apply in_map_iff in Hv as (rule & <- & Hrule).
  apply In_rules_violated in Hrule as (key & Hin & Hc).
  exists book, key, rule. repeat split; assumption.
Qed.

(** C6, where the code departs from the claim: the rebuild inside
    [find_policy_violations] calls [build_rule_book] without the argument
    it requires.  With [force_rebuild] set, and also when no rule book has
    been built, the call raises [TypeError]; nothing is rebuilt and the
    chain is not evaluated.  Only the other half of the claim holds: an
    existing rule book is used as it is and the engine is left unchanged. *)
Theorem find_policy_violations_rebuild_raises :
  (forall self member chain,
     find_policy_violations self member chain true = (self, Raise TypeError)) /\
  (forall file member chain force_rebuild,
     find_policy_violations (mkEngine file None) member chain force_rebuild
     = (mkEngine file None, Raise TypeError)) /\
  (forall file book member chain,
     find_policy_violations (mkEngine file (Some book)) member chain false
     = (mkEngine file (Some book),
        Ok (concat (map (fun rule => policy_violation rule member chain)
                      (rules_violated book chain))))).
Proof.
  split; [|split].
  - intros self member chain. unfold find_policy_violations.
    destruct (rule_book self); reflexivity.
  - reflexivity.
  - reflexivity.
Qed.

(** C8, where the code departs from the claim: [policy_violation] stores
    the name of the ancestor, a string, in the rule-ancestor field, and
    [_flatten_violations] reads the attribute [name] of that field.  So
    whenever the engine yields at least one violation, consuming the
    flattened sequence raises [AttributeError] and no record is made. *)
Theorem flatten_violations_raises_on_engine_output :
  forall file book member leaf rest,
    let self := mkEngine file (Some book) in
    exists g vs,
      find_policy_violations self member (leaf :: rest) false = (self, Ok g) /\
      consume g = Ok vs /\
      consume (_flatten_violations vs)
      = match vs with [] => Ok [] | _ :: _ => Raise AttributeError end.
Proof.
  intros file book member leaf rest self. eexists. eexists.
  split; [reflexivity|]. split; [apply consume_policy_violations|].
  destruct (rules_violated book (leaf :: rest)); reflexivity.
Qed.

(** The deny case of the spec, taken to the output stage. *)
Example flatten_deny_case :
  let book := {| resource_rules_map :=
                   [(create_resource "567890" ORGANIZATION,
                     {| rule_name := Some "default"; rule_index := 0;
                        rules := create_resource "567890" ORGANIZATION |})] |} in
  let chain := [create_resource "13579" PROJECT;
                create_resource "24680" FOLDER;
                create_resource "1357924680" ORGANIZATION] in
  (g ← snd (find_policy_violations (mkEngine None (Some book))
              "user2@example.com" chain false);
   vs ← consume g;
   consume (_flatten_violations vs))
  = Raise AttributeError.
Proof. reflexivity. Qed.

(** C10.  With a rule book in place the call itself never fails.
    Consuming its result succeeds for every non-empty chain, whatever lies
    beyond index 0; for the empty chain and a book of at least one rule it
    raises [IndexError]; and whenever it raises, it is [IndexError] and
    index 0 of the chain does not exist. *)
Theorem find_policy_violations_needs_leaf
    (self : ExternalProjectAccessRulesEngine)
    (book : ExternalProjectAccessRuleBook) (member : string) :
  rule_book self = Some book ->
  (forall chain, exists g,
     find_policy_violations self member chain false = (self, Ok g) /\
     (chain <> [] -> exists vs, consume g = Ok vs) /\
     (chain = [] -> resource_rules_map book <> [] ->
      consume g = Raise IndexError) /\
     (forall e, consume g = Raise e ->
                e = IndexError /\ getitem chain 0 = Raise IndexError)).
Proof.
  intros Hbook chain. eexists.
  split; [apply find_policy_violations_reuse; exact Hbook|].
  destruct chain as [|leaf rest].
  - split; [congruence|]. unfold rules_violated. cbn [contains existsb negb].
    assert (forall m : list (AncestryResource * Rule),
              List.filter (fun _ => true) m = m) as ->.
    { induction m as [|x m IH]; [reflexivity|]. simpl. now rewrite IH. }
    destruct (resource_rules_map book) as [|[key rule] m].
    + split; [congruence|]. simpl. discriminate.
    + split; [reflexivity|]. simpl. intros e [= <-]. split; reflexivity.
  - rewrite consume_policy_violations. split; [eauto|].
    split; [discriminate|]. discriminate.
Qed.

(** ** Building the rule book *)

Lemma resource_eqb_key_of (a b : AncestryResource) :
  resource_eqb a b = true <-> key_of a = key_of b.
Proof.
  rewrite resource_eqb_spec. unfold key_of. split.
  - intros [-> ->]. reflexivity.
  - intros [= -> ->]. split; reflexivity.
Qed.

Lemma contains_key_of (l : list AncestryResource) (x : AncestryResource) :
  contains l x = true <-> In (key_of x) (map key_of l).
Proof.
  unfold contains. rewrite existsb_exists, in_map_iff. split.
  - intros (e & He & H). exists e. apply resource_eqb_key_of in H. split;
      [congruence | exact He].
  - intros (e & H & He). exists e. split; [exact He|].
    apply resource_eqb_key_of. congruence.
Qed.

Lemma rules_map_get_app (m m' : list (AncestryResource * Rule))
    (key : AncestryResource) :
  rules_map_get (m ++ m') key
  = match rules_map_get m key with
    | Some r => Some r
    | None => rules_map_get m' key
    end.
Proof.
  unfold rules_map_get. induction m as [|kr m IH]; [reflexivity|].
  simpl. destruct (resource_eqb key (fst kr)); [reflexivity | exact IH].
Qed.

Lemma rules_map_get_None (m : list (AncestryResource * Rule))
    (key : AncestryResource) :
  rules_map_get m key = None <-> contains (map fst m) key = false.
Proof.
  unfold rules_map_get, contains. induction m as [|kr m IH]; [tauto|].
  simpl. destruct (resource_eqb key (fst kr)); simpl; [|exact IH].
  split; discriminate.
Qed.

Lemma rules_map_get_In (m : list (AncestryResource * Rule))
    (key : AncestryResource) (r : Rule) :
  rules_map_get m key = Some r ->
  exists k, In (k, r) m /\ resource_eqb key k = true.
Proof.
  unfold rules_map_get. induction m as [|[k r'] m IH]; [discriminate|].
  simpl. destruct (resource_eqb key k) eqn:E.
  - intros [= <-]. exists k. split; [now left | exact E].
  - intros H. destruct (IH H) as (k' & Hin & Hk'). exists k'.
    split; [now right | exact Hk'].
Qed.

Lemma rules_map_get_proper (m : list (AncestryResource * Rule))
    (key key' : AncestryResource) :
  resource_eqb key key' = true ->
  rules_map_get m key = rules_map_get m key'.
Proof.
  intros H. unfold rules_map_get. f_equal.
  induction m as [|kr m IH]; [reflexivity|]. simpl.
  assert (resource_eqb key (fst kr) = resource_eqb key' (fst kr)) as ->.
  { apply eq_true_iff_eq. split; intros H'.
    - apply resource_eqb_trans with key; [|exact H'].
      now rewrite resource_eqb_sym.
    - now apply resource_eqb_trans with key'. }
  now rewrite IH.
Qed.

(** The result of [process_rule] does not depend on the index, which only
    goes into the message of the error. *)
Lemma process_rule_index (rule_def : RuleDef) (i j : nat)
    (key : AncestryResource) :
  process_rule rule_def i = Ok key -> process_rule rule_def j = Ok key.
Proof.
  unfold process_rule. destruct (def_ancestor rule_def) as [a|]; [|discriminate].
  destruct (validate_ancestor (Some a) i) as [[]|e] eqn:E; [|discriminate].
  apply validate_ancestor_ok_iff in E.
  apply (validate_ancestor_ok_iff a j) in E. rewrite E. trivial.
Qed.

Lemma split_slash_from_cons (cur s : string) :
  exists x l, split_slash_from cur s = x :: l.
Proof.
  revert cur. induction s as [|c s IH]; intros cur; simpl; [eauto|].
  destruct (Ascii.eqb c "/"); [eauto | apply IH].
Qed.

(** After a successful validation the two branches of [process_rule]
    marked unreachable are not taken. *)
Lemma process_rule_validated (rule_def : RuleDef) (i : nat) :
  validate_ancestor (def_ancestor rule_def) i = Ok tt ->
  exists key, process_rule rule_def i = Ok key /\
              (r_type key = ORGANIZATION \/ r_type key = FOLDER).
Proof.
  unfold process_rule. destruct (def_ancestor rule_def) as [a|]; [|discriminate].
  intros E. rewrite E. apply validate_ancestor_ok_iff in E.
  cbn [mbind result_bind].
  assert (exists ds, a = "organizations/" +:+ ds \/ a = "folders/" +:+ ds)
    as (ds & Ha).
  { destruct E as [(ds & _ & _ & H) | (s' & -> & ds & _ & _ & H)].
    - exists ds. exact H.
    - exists (ds +:+ nl). destruct H as [-> | ->]; [left | right]; reflexivity. }
  destruct (split_slash_from_cons "" ds) as (x & l & Hsplit).
  destruct Ha as [-> | ->].
  - change (type_from_name ("organizations/" +:+ ds)) with (Some ORGANIZATION).
    change (split_slash ("organizations/" +:+ ds))
      with ("organizations" :: split_slash_from "" ds).
    rewrite Hsplit. eexists. split; [reflexivity | now left].
  - change (type_from_name ("folders/" +:+ ds)) with (Some FOLDER).
    change (split_slash ("folders/" +:+ ds))
      with ("folders" :: split_slash_from "" ds).
    rewrite Hsplit. eexists. split; [reflexivity | now right].
Qed.

Lemma add_rule_spec (self self' : ExternalProjectAccessRuleBook)
    (rule_def : RuleDef) (i : nat) :
  add_rule self rule_def i = Ok self' ->
  exists ancestor,
    process_rule rule_def i = Ok ancestor /\
    (forall key,
       rules_map_get (resource_rules_map self') key
       = match rules_map_get (resource_rules_map self) key with
         | Some r => Some r
         | None =>
             if resource_eqb key ancestor then
               Some {| rule_name := def_name rule_def; rule_index := i;
                       rules := ancestor |}
             else None
         end) /\
    (book_wf (resource_rules_map self) ->
     book_wf (resource_rules_map self')) /\
    (length (resource_rules_map self')
     = if contains (map fst (resource_rules_map self)) ancestor
       then length (resource_rules_map self)
       else S (length (resource_rules_map self))).
Proof.
  unfold add_rule. destruct (process_rule rule_def i) as [ancestor|e];
    [|discriminate].
  cbn [mbind result_bind].
  destruct (contains (map fst (resource_rules_map self)) ancestor) eqn:Hc;
    cbn [negb]; intros [= <-]; exists ancestor; (split; [reflexivity|]).
  - split; [|split; [tauto | now rewrite Hc]]. intros key.
    destruct (rules_map_get (resource_rules_map self) key) eqn:Hk;
      [reflexivity|].
    destruct (resource_eqb key ancestor) eqn:E; [|reflexivity].
    rewrite (rules_map_get_proper _ _ _ E) in Hk.
    apply rules_map_get_None in Hk. congruence.
  - cbn [resource_rules_map]. split; [|split].
    + intros key. rewrite rules_map_get_app.
      destruct (rules_map_get (resource_rules_map self) key); [reflexivity|].
      unfold rules_map_get. simpl. now destruct (resource_eqb key ancestor).
    + intros [Hnd Hown]. split.
      * rewrite map_app. apply NoDup_app. split; [exact Hnd|].
        split; [|apply NoDup_singleton].
        intros x Hx Hx'. apply list_elem_of_singleton in Hx'. subst x.
        apply list_elem_of_In in Hx. cbn [fst] in Hx.
        assert (contains (map fst (resource_rules_map self)) ancestor = true)
          as Hc'; [|congruence].
        apply contains_key_of. now rewrite map_map.
      * intros kr Hin. apply in_app_or in Hin as [Hin | [<- | []]];
          [now apply Hown | reflexivity].
    + rewrite Hc, length_app. simpl. lia.
Qed.

Lemma add_rules_from_spec (rule_defs : list RuleDef) :
  forall (self book : ExternalProjectAccessRuleBook) (i : nat),
    add_rules_from self i rule_defs = Ok book ->
    (forall key,
       rules_map_get (resource_rules_map book) key
       = match rules_map_get (resource_rules_map self) key with
         | Some r => Some r
         | None => first_rule_for key i rule_defs
         end) /\
    (book_wf (resource_rules_map self) ->
     book_wf (resource_rules_map book)) /\
    (forall n rule_def, rule_defs !! n = Some rule_def ->
       exists ancestor, process_rule rule_def (i + n) = Ok ancestor).
Proof.
  induction rule_defs as [|rule_def rest IH]; intros self book i.
  - simpl. intros [= <-]. split; [|split; [tauto|]].
    + intros key. now destruct (rules_map_get _ key).
    + intros n d H. discriminate.
  - cbn [add_rules_from].
    destruct (add_rule self rule_def i) as [self'|e] eqn:Hadd; [|discriminate].
    cbn [mbind result_bind]. intros Hrest.
    destruct (add_rule_spec _ _ _ _ Hadd) as (ancestor & Hp & Hget & Hwf & _).
    destruct (IH _ _ _ Hrest) as (Hget' & Hwf' & Hall).
    split; [|split; [tauto|]].
    + intros key. rewrite Hget', Hget. cbn [first_rule_for]. rewrite Hp.
      destruct (rules_map_get (resource_rules_map self) key); [reflexivity|].
      now destruct (resource_eqb key ancestor).
    + intros [|n] d Hd.
      * injection Hd as <-. rewrite Nat.add_0_r. eauto.
      * replace (i + S n) with (S i + n) by lia. now apply Hall.
Qed.

(** The first definition naming an ancestor is the one [first_rule_for]
    picks. *)
Lemma first_rule_for_first (key : AncestryResource) (rule_defs : list RuleDef) :
  forall (i n : nat) (rule_def : RuleDef) (ancestor : AncestryResource),
    (forall j dj, rule_defs !! j = Some dj ->
       exists kj, process_rule dj (i + j) = Ok kj) ->
    rule_defs !! n = Some rule_def ->
    process_rule rule_def (i + n) = Ok ancestor ->
    resource_eqb key ancestor = true ->
    (forall j dj kj, j < n -> rule_defs !! j = Some dj ->
       process_rule dj (i + j) = Ok kj -> resource_eqb kj key = false) ->
    first_rule_for key i rule_defs
    = Some {| rule_name := def_name rule_def; rule_index := i + n;
              rules := ancestor |}.
Proof.
  induction rule_defs as [|d rest IH]; intros i n rule_def ancestor Hall Hn Hp Hk Hfirst.
  - discriminate.
  - cbn [first_rule_for]. destruct n as [|n].
    + injection Hn as ->. rewrite Nat.add_0_r in *. rewrite Hp, Hk.
      reflexivity.
    + destruct (Hall 0 d eq_refl) as (k0 & Hk0). rewrite Nat.add_0_r in Hk0.
      rewrite Hk0.
      assert (resource_eqb key k0 = false) as ->.
      { rewrite resource_eqb_sym. apply (Hfirst 0 d k0); [lia | reflexivity|].
        now rewrite Nat.add_0_r. }
      replace (i + S n) with (S i + n) in * by lia.
      apply IH; try assumption.
      * intros j dj Hj. replace (S i + j) with (i + S j) by lia.
        now apply Hall.
      * intros j dj kj Hlt Hj Hpj. apply (Hfirst (S j) dj kj); [lia | exact Hj|].
        now replace (i + S j) with (S i + j) by lia.
Qed.

(** [add_rule] on a [WellTyped] entry raises no [TypeError]. *)
Lemma add_rule_not_TypeError (self : ExternalProjectAccessRuleBook)
    (rule_def : RuleDef) (i : nat) :
  add_rule self rule_def i <> Raise TypeError.
Proof.
  unfold add_rule, process_rule.
  destruct (validate_ancestor (def_ancestor rule_def) i) as [[]|e] eqn:E.
  - cbn [mbind result_bind].
    destruct (def_ancestor rule_def) as [a|]; [|discriminate].
    unfold getitem. destruct (split_slash a !! 1); cbn [mbind result_bind];
      [|discriminate].
    destruct (type_from_name a); cbn [mbind result_bind]; [|discriminate].
    destruct (negb _); discriminate.
  - cbn [mbind result_bind].
    destruct (validate_ancestor_raises _ _ _ E) as [-> | ->]; discriminate.
Qed.

(** On entries that are all [WellTyped] the loop of [add_rules] is the
    sequence of the calls of [add_rule]. *)
Lemma add_rules_loop_well_typed (rule_defs : list RuleDef) :
  forall (self : ExternalProjectAccessRuleBook) (i : nat),
    match add_rules_loop self i (map WellTyped rule_defs) with
    | (self', Ok _) => add_rules_from self i rule_defs = Ok self'
    | (_, Raise e) =>
        add_rules_from self i rule_defs = Raise e /\ e <> TypeError
    end.
Proof.
  induction rule_defs as [|rule_def rest IH]; intros self i; [reflexivity|].
  cbn [map add_rules_loop add_loaded_rule add_rules_from].
  destruct (add_rule self rule_def i) as [self'|e] eqn:Hadd.
  - cbn [mbind result_bind]. apply IH.
  - split; [reflexivity|]. intros ->.
    now apply (add_rule_not_TypeError self rule_def i).
Qed.

Lemma RuleBook_init_well_typed (global_configs : option GlobalConfigs)
    (rule_defs : list RuleDef) :
  RuleBook_init global_configs (Some (mkRuleDefs (Some rule_defs)))
  = add_rules_from {| resource_rules_map := [] |} 0 rule_defs.
Proof.
  unfold RuleBook_init, add_rules, mkRuleDefs.
  cbn [defs_rules fmap option_fmap option_map].
  pose proof (add_rules_loop_well_typed rule_defs
                {| resource_rules_map := [] |} 0) as H.
  destruct (add_rules_loop _ 0 (map WellTyped rule_defs)) as [self' [[]|e]].
  - now rewrite H.
  - destruct H as [-> Hne]. destruct e; congruence.
Qed.

Lemma NoDup_map_inj {A B : Type} (f : A -> B) (l : list A) (x y : A) :
  NoDup (map f l) -> In x l -> In y l -> f x = f y -> x = y.
Proof.
  induction l as [|a l IH]; [intros _ []|].
  cbn [map]. intros Hnd Hx Hy Hf. apply NoDup_cons in Hnd as [Ha Hnd].
  rewrite list_elem_of_In, in_map_iff in Ha.
  destruct Hx as [-> | Hx], Hy as [-> | Hy].
  - reflexivity.
  - destruct Ha. exists y. split; [congruence | exact Hy].
  - destruct Ha. exists x. split; [congruence | exact Hx].
  - now apply IH.
Qed.

(** C5.  In a rule book built from a sequence of definitions the keys are
    pairwise distinct as (type, id) pairs.  The first definition naming an
    ancestor is kept, with its name and index; every later definition
    naming the same ancestor is dropped, and looking the rule book up
    under its ancestor gives the rule of the first.  A book built from two
    definitions naming one ancestor has exactly one rule. *)
Theorem rule_book_first_definition_wins
    (global_configs : option GlobalConfigs) (rule_defs : list RuleDef)
    (book : ExternalProjectAccessRuleBook) :
  RuleBook_init global_configs (Some (mkRuleDefs (Some rule_defs))) = Ok book ->
  let m := resource_rules_map book in
  NoDup (map (fun kr => key_of (fst kr)) m) /\
  (forall n rule_def ancestor,
     rule_defs !! n = Some rule_def ->
     process_rule rule_def n = Ok ancestor ->
     (forall j dj kj, j < n -> rule_defs !! j = Some dj ->
        process_rule dj j = Ok kj -> resource_eqb kj ancestor = false) ->
     let rule := {| rule_name := def_name rule_def; rule_index := n;
                    rules := ancestor |} in
     In (ancestor, rule) m /\
     forall n' rule_def' ancestor',
       n < n' -> rule_defs !! n' = Some rule_def' ->
       process_rule rule_def' n' = Ok ancestor' ->
       resource_eqb ancestor ancestor' = true ->
       rules_map_get m ancestor' = Some rule /\
       ~ In (ancestor', {| rule_name := def_name rule_def';
                           rule_index := n'; rules := ancestor' |}) m) /\
  (forall d1 d2 k1 k2,
     rule_defs = [d1; d2] ->
     process_rule d1 0 = Ok k1 -> process_rule d2 1 = Ok k2 ->
     resource_eqb k1 k2 = true ->
     length m = 1).
Proof.
  intros Hbuild m. rewrite RuleBook_init_well_typed in Hbuild.
  destruct (add_rules_from_spec _ _ _ _ Hbuild) as (Hget & Hwf & Hall).
  cbn [resource_rules_map rules_map_get List.find fmap option_fmap option_map]
    in Hget.
  assert (book_wf m) as [Hnd Hown].
  { apply Hwf. split; [constructor | intros kr []]. }
  split; [exact Hnd|]. split.
  - intros n rule_def ancestor Hn Hp Hfirst rule.
    assert (rules_map_get m ancestor = Some rule) as Hrule.
    { unfold m. rewrite Hget.
      apply (first_rule_for_first ancestor rule_defs 0 n); try assumption.
      apply resource_eqb_refl. }
    assert (In (ancestor, rule) m) as Hin.
    { destruct (rules_map_get_In _ _ _ Hrule) as (k & Hin & _).
      specialize (Hown _ Hin). simpl in Hown. now subst k. }
    split; [exact Hin|].
    intros n' rule_def' ancestor' Hlt Hn' Hp' Heq. split.
    + rewrite <- Hrule. apply rules_map_get_proper.
      now rewrite resource_eqb_sym.
    + intros Hin'.
      assert ((ancestor, rule)
              = (ancestor', {| rule_name := def_name rule_def';
                               rule_index := n'; rules := ancestor' |}))
        as Hpair.
      { apply (NoDup_map_inj (fun kr => key_of (fst kr)) m); try assumption.
        simpl. now apply resource_eqb_key_of. }
      injection Hpair as _ _ Hidx _. lia.
  - intros d1 d2 k1 k2 -> Hp1 Hp2 Heq. unfold m. revert Hbuild.
    cbn [add_rules_from]. unfold add_rule. rewrite Hp1.
    cbn [mbind result_bind resource_rules_map map contains existsb negb app].
    rewrite Hp2.
    cbn [mbind result_bind resource_rules_map map contains existsb negb fst].
    rewrite resource_eqb_sym, Heq. cbn [orb negb].
    intros [= <-]. reflexivity.
Qed.

(** The hypothesis of the theorem is met: the case of the spec, two
    definitions naming organization 567890. *)
Lemma rule_book_first_definition_wins_witness :
  let rule_defs := [mkRuleDef (Some "first") (Some "organizations/567890");
                    mkRuleDef (Some "second") (Some "organizations/567890")] in
  exists book,
    RuleBook_init None (Some (mkRuleDefs (Some rule_defs))) = Ok book /\
    length (resource_rules_map book) = 1.
Proof.
  intros rule_defs. eexists. split; [reflexivity|].
  eapply (rule_book_first_definition_wins None rule_defs);
    reflexivity.
Defined.

(** ** The ancestry cache *)

Lemma append_resources_spec (answer : list AncestorDescriptor) :
  forall (w : World) (project_id : string) (chain : list AncestryResource),
    cache w !! project_id = Some chain ->
    cache (append_resources w project_id answer)
    = <[project_id := chain ++ map resource_of answer]> (cache w) /\
    remote_lookups (append_resources w project_id answer) = remote_lookups w.
Proof.
  induction answer as [|d answer IH]; intros w project_id chain Hc.
  - simpl. rewrite app_nil_r, insert_id by exact Hc. split; reflexivity.
  - cbn [append_resources map].
    destruct (IH (append_ancestry w project_id (resource_of d)) project_id
                (chain ++ [resource_of d])) as [Hcache Hlog].
    { cbn [append_ancestry scanner _ancestries].
      rewrite lookup_alter_eq, Hc. reflexivity. }
    fold (resource_of d). rewrite Hcache, Hlog. split; [|reflexivity].
    cbn [append_ancestry scanner _ancestries].
    rewrite insert_alter_eq, <- app_assoc. reflexivity.
Qed.

(** What the block guarded by [not in self._ancestries.keys()] does. *)
Lemma ensure_ancestry_hit (crm : CloudResourceManager) (user_email : string)
    (w : World) (project_id : string) (chain : list AncestryResource) :
  cache w !! project_id = Some chain ->
  ensure_ancestry crm user_email w project_id = (w, Ok tt).
Proof. intros H. unfold ensure_ancestry. now rewrite H. Qed.

Lemma ensure_ancestry_miss (crm : CloudResourceManager) (user_email : string)
    (w : World) (project_id : string) :
  cache w !! project_id = None ->
  exists w',
    ensure_ancestry crm user_email w project_id
    = (w', match snd (get_project_ancestry crm (remote_lookups w) user_email
                        project_id) with
           | Some e => Raise e
           | None => Ok tt
           end) /\
    cache w'
    = <[project_id :=
          map resource_of
            (fst (get_project_ancestry crm (remote_lookups w) user_email
                    project_id))]> (cache w) /\
    remote_lookups w' = remote_lookups w ++ [project_id].
Proof.
  intros H. unfold ensure_ancestry. rewrite H.
  cbn [set_ancestry remote_lookups].
  destruct (get_project_ancestry crm (remote_lookups w) user_email project_id)
    as [answer failure].
  cbn [fst snd].
  match goal with
  | |- context [append_resources ?w0 project_id answer] =>
      destruct (append_resources_spec answer w0 project_id [])
        as [Hcache Hlog]
  end.
  { cbn [record_lookup scanner _ancestries]. apply lookup_insert_eq. }
  eexists. split; [destruct failure; reflexivity|].
  rewrite Hcache, Hlog. cbn [record_lookup scanner _ancestries remote_lookups].
  cbn [set_ancestry scanner _ancestries remote_lookups app].
  rewrite insert_insert_eq. split; reflexivity.
Qed.

Lemma grows_refl (w : World) : grows w w.
Proof.
  exists []. rewrite app_nil_r. split; [reflexivity|].
  split; [constructor|]. split; [|tauto].
  intros p Hp. now apply elem_of_nil in Hp.
Qed.

Lemma grows_trans (w1 w2 w3 : World) :
  grows w1 w2 -> grows w2 w3 -> grows w1 w3.
Proof.
  intros (l & Hl & Hnd & Hnew & Hkeep) (l' & Hl' & Hnd' & Hnew' & Hkeep').
  exists (l ++ l'). split; [now rewrite Hl', Hl, app_assoc|].
  split; [|split].
  - apply NoDup_app. split; [exact Hnd|]. split; [|exact Hnd'].
    intros p Hp Hp'. destruct (Hnew p Hp) as [_ [c Hc]].
    destruct (Hnew' p Hp') as [Hnone _]. congruence.
  - intros p Hp. apply elem_of_app in Hp as [Hp | Hp].
    + destruct (Hnew p Hp) as [Hnone [c Hc]]. split; [exact Hnone|].
      exists c. now apply Hkeep'.
    + destruct (Hnew' p Hp) as [Hnone Hsome]. split; [|exact Hsome].
      destruct (cache w1 !! p) as [c|] eqn:E; [|reflexivity].
      apply Hkeep in E. congruence.
  - intros p c Hc. now apply Hkeep', Hkeep.
Qed.

Lemma grows_lookup (w w' : World) (p : string) (c : list AncestryResource) :
  grows w w' -> cache w !! p = Some c -> cache w' !! p = Some c.
Proof. intros (l & _ & _ & _ & Hkeep). apply Hkeep. Qed.

(** No request goes out for a project the cache already holds. *)
Lemma grows_no_lookup (w w' : World) (p : string) :
  grows w w' -> is_Some (cache w !! p) ->
  exists l, remote_lookups w' = remote_lookups w ++ l /\ p ∉ l.
Proof.
  intros (l & Hl & _ & Hnew & _) [c Hc]. exists l. split; [exact Hl|].
  intros Hp. destruct (Hnew p Hp) as [Hnone _]. congruence.
Qed.

Lemma ensure_ancestry_grows (crm : CloudResourceManager) (user_email : string)
    (w w' : World) (project_id : string) (r : result unit) :
  ensure_ancestry crm user_email w project_id = (w', r) ->
  grows w w' /\ is_Some (cache w' !! project_id).
Proof.
  destruct (cache w !! project_id) as [chain|] eqn:E.
  - rewrite (ensure_ancestry_hit _ _ _ _ _ E). intros [= <- <-].
    split; [apply grows_refl | eauto].
  - destruct (ensure_ancestry_miss crm user_email _ _ E)
      as (w1 & Hrun & Hcache & Hlog).
    rewrite Hrun. intros [= <- <-]. split.
    + exists [project_id]. split; [exact Hlog|].
      split; [apply NoDup_singleton|]. split.
      * intros p Hp. apply list_elem_of_singleton in Hp. subst p.
        split; [exact E|]. rewrite Hcache, lookup_insert_eq. eauto.
      * intros p c Hc. rewrite Hcache, lookup_insert_ne; [exact Hc|].
        intros ->. congruence.
    + rewrite Hcache, lookup_insert_eq. eauto.
Qed.

(** The loop over the project ids: the chains appended are those the
    cache holds for the ids, in order. *)
Lemma for_project_ids_spec (crm : CloudResourceManager) (user_email : string)
    (project_ids : list string) :
  forall (w w' : World) (ancestries : list (list AncestryResource))
         (r : result (list (list AncestryResource))),
    for_project_ids crm user_email w project_ids ancestries = (w', r) ->
    grows w w' /\
    forall chains, r = Ok chains ->
      exists new, chains = ancestries ++ new /\
                  Forall2 (fun p c => cache w' !! p = Some c) project_ids new.
Proof.
  induction project_ids as [|p rest IH]; intros w w' ancestries r.
  - simpl. intros [= <- <-]. split; [apply grows_refl|].
    intros chains [= <-]. exists []. rewrite app_nil_r.
    split; [reflexivity | constructor].
  - cbn [for_project_ids].
    destruct (ensure_ancestry crm user_email w p) as [w1 [[]|e]] eqn:Hens.
    + destruct (ensure_ancestry_grows _ _ _ _ _ _ Hens) as [Hg [c Hc]].
      rewrite Hc. intros Hrest.
      destruct (IH _ _ _ _ Hrest) as [Hg' Hchains].
      split; [now apply grows_trans with w1|].
      intros chains Hr. destruct (Hchains chains Hr) as (new & -> & Hnew).
      exists (c :: new). rewrite <- app_assoc. split; [reflexivity|].
      constructor; [|exact Hnew]. now apply (grows_lookup w1).
    + intros [= <- <-].
      split; [apply (ensure_ancestry_grows _ _ _ _ _ _ Hens)|].
      intros chains H. discriminate H.
Qed.

Lemma project_ancestries_by_user_spec (crm : CloudResourceManager)
    (w w' : World) (user_email : string)
    (r : result (list (list AncestryResource))) :
  _project_ancestries_by_user crm w user_email = (w', r) ->
  grows w w' /\
  forall chains, r = Ok chains ->
    exists project_ids,
      project_ids_of crm user_email = Ok project_ids /\
      Forall2 (fun p c => cache w' !! p = Some c) project_ids chains.
Proof.
  unfold _project_ancestries_by_user.
  destruct (project_ids_of crm user_email) as [project_ids|e].
  - intros Hrun. destruct (for_project_ids_spec _ _ _ _ _ _ _ Hrun)
      as [Hg Hchains].
    split; [exact Hg|]. intros chains Hr.
    destruct (Hchains chains Hr) as (new & -> & Hnew).
    exists project_ids. split; [reflexivity | exact Hnew].
  - intros [= <- <-]. split; [apply grows_refl|]. intros chains H.
    discriminate H.
Qed.

Lemma chains_from_cache_grows (crm : CloudResourceManager) (w w' : World)
    (m : gmap string (list (list AncestryResource))) :
  grows w w' -> chains_from_cache crm w m -> chains_from_cache crm w' m.
Proof.
  intros Hg Hm user_email chains Hu.
  destruct (Hm _ _ Hu) as (project_ids & Hids & Hall).
  exists project_ids. split; [exact Hids|].
  eapply Forall2_impl; [exact Hall|]. intros p c. now apply grows_lookup.
Qed.

Lemma retrieve_rows_spec (crm : CloudResourceManager)
    (rows : list InventoryRow) :
  forall (w w' : World) (m : gmap string (list (list AncestryResource)))
         (r : result (gmap string (list (list AncestryResource)))),
    retrieve_rows crm w rows m = (w', r) ->
    grows w w' /\
    (chains_from_cache crm w m ->
     forall m', r = Ok m' -> chains_from_cache crm w' m').
Proof.
  induction rows as [|[[user_email|]] rest IH]; intros w w' m r.
  - simpl. intros [= <- <-]. split; [apply grows_refl|].
    intros Hm m' [= <-]. exact Hm.
  - cbn [retrieve_rows row_email].
    destruct (_project_ancestries_by_user crm w user_email) as [w1 r1] eqn:Hu.
    destruct (project_ancestries_by_user_spec _ _ _ _ _ Hu) as [Hg Hchains].
    assert (forall m1, chains_from_cache crm w m ->
              (m1 = m \/ exists chains, r1 = Ok chains /\
                                        m1 = <[user_email := chains]> m) ->
              retrieve_rows crm w1 rest m1 = (w', r) ->
              grows w w' /\
              forall m', r = Ok m' -> chains_from_cache crm w' m') as Hnext.
    { intros m1 Hm Hm1 Hrest. destruct (IH _ _ _ _ Hrest) as [Hg' Hm'].
      split; [now apply grows_trans with w1|]. apply Hm'.
      destruct Hm1 as [-> | (chains & -> & ->)].
      - now apply chains_from_cache_grows with w.
      - intros u cs Hcs. destruct (decide (user_email = u)) as [<- | Hne].
        + rewrite lookup_insert_eq in Hcs. injection Hcs as <-.
          now apply Hchains.
        + rewrite lookup_insert_ne in Hcs by exact Hne.
          now apply (chains_from_cache_grows crm w w1 m Hg Hm). }
    assert (forall e, (w1, Raise e) = (w', r) ->
              grows w w' /\
              (chains_from_cache crm w m ->
               forall m', r = Ok m' -> chains_from_cache crm w' m')) as Hstop.
    { intros e [= <- <-]. split; [exact Hg|]. intros _ m' H. discriminate H. }
    destruct r1 as [chains | e].
    + intros Hrest. split.
      * destruct (IH _ _ _ _ Hrest) as [Hg' _]. now apply grows_trans with w1.
      * intros Hm. apply (Hnext (<[user_email := chains]> m) Hm); [|exact Hrest].
        right. eauto.
    + destruct e; try apply Hstop.
      * intros Hrest. split.
        -- destruct (IH _ _ _ _ Hrest) as [Hg' _].
           now apply grows_trans with w1.
        -- intros Hm. apply (Hnext m Hm); [now left | exact Hrest].
      * intros Hrest. split.
        -- destruct (IH _ _ _ _ Hrest) as [Hg' _].
           now apply grows_trans with w1.
        -- intros Hm. apply (Hnext m Hm); [now left | exact Hrest].
  - cbn [retrieve_rows row_email]. intros [= <- <-].
    split; [apply grows_refl|]. intros _ m' H. discriminate H.
Qed.

Lemma lookups_once_init (engine : ExternalProjectAccessRulesEngine) :
  lookups_once (mkWorld (mkScanner engine ∅) []).
Proof.
  split; [constructor|]. intros p Hp. now apply elem_of_nil in Hp.
Qed.

Lemma lookups_once_grows (w w' : World) :
  lookups_once w -> grows w w' -> lookups_once w'.
Proof.
  intros [Hnd Hin] (l & Hl & Hndl & Hnew & Hkeep). split.
  - rewrite Hl. apply NoDup_app. split; [exact Hnd|]. split; [|exact Hndl].
    intros p Hp Hp'. destruct (Hin p Hp) as [c Hc].
    destruct (Hnew p Hp') as [Hnone _]. congruence.
  - intros p Hp. rewrite Hl in Hp. apply elem_of_app in Hp as [Hp | Hp].
    + destruct (Hin p Hp) as [c Hc]. exists c. now apply Hkeep.
    + now apply Hnew.
Qed.

(** A request answered into the cache stays answered. *)
Lemma ensure_ancestry_answered (crm : CloudResourceManager)
    (user_email : string) (w w' : World) (project_id : string)
    (r : result unit) :
  answered crm w ->
  ensure_ancestry crm user_email w project_id = (w', r) ->
  answered crm w'.
Proof.
  intros Hans. destruct (cache w !! project_id) as [chain|] eqn:E.
  - rewrite (ensure_ancestry_hit _ _ _ _ _ E). now intros [= <- _].
  - destruct (ensure_ancestry_miss crm user_email _ _ E)
      as (w1 & Hrun & Hcache & Hlog).
    rewrite Hrun. intros [= <- _]. intros k P Hk. rewrite Hlog in Hk |- *.
    destruct (decide (k < length (remote_lookups w))) as [Hlt | Hge].
    + rewrite lookup_app_l in Hk by exact Hlt.
      destruct (Hans k P Hk) as (u & Hu). exists u.
      rewrite take_app_le by lia.
      rewrite Hcache, lookup_insert_ne; [exact Hu|]. intros ->. congruence.
    + rewrite lookup_app_r in Hk by lia.
      destruct (k - length (remote_lookups w)) as [|k'] eqn:Hk';
        [|discriminate Hk].
      injection Hk as <-. assert (k = length (remote_lookups w)) as -> by lia.
      exists user_email. rewrite take_app_length.
      rewrite Hcache. apply lookup_insert_eq.
Qed.

Lemma for_project_ids_answered (crm : CloudResourceManager)
    (user_email : string) (project_ids : list string) :
  forall (w w' : World) (ancestries : list (list AncestryResource))
         (r : result (list (list AncestryResource))),
    answered crm w ->
    for_project_ids crm user_email w project_ids ancestries = (w', r) ->
    answered crm w'.
Proof.
  induction project_ids as [|p rest IH]; intros w w' ancestries r Hans.
  - simpl. now intros [= <- _].
  - cbn [for_project_ids].
    destruct (ensure_ancestry crm user_email w p) as [w1 [[]|e]] eqn:Hens;
      pose proof (ensure_ancestry_answered _ _ _ _ _ _ Hans Hens) as Hans1.
    + destruct (cache w1 !! p); [apply IH; exact Hans1 | now intros [= <- _]].
    + now intros [= <- _].
Qed.

Lemma project_ancestries_by_user_answered (crm : CloudResourceManager)
    (w w' : World) (user_email : string)
    (r : result (list (list AncestryResource))) :
  answered crm w ->
  _project_ancestries_by_user crm w user_email = (w', r) ->
  answered crm w'.
Proof.
  intros Hans. unfold _project_ancestries_by_user.
  destruct (project_ids_of crm user_email) as [project_ids|e].
  - now apply for_project_ids_answered.
  - now intros [= <- _].
Qed.

Lemma retrieve_rows_answered (crm : CloudResourceManager)
    (rows : list InventoryRow) :
  forall (w w' : World) (m : gmap string (list (list AncestryResource)))
         (r : result (gmap string (list (list AncestryResource)))),
    answered crm w ->
    retrieve_rows crm w rows m = (w', r) ->
    answered crm w'.
Proof.
  induction rows as [|[[user_email|]] rest IH]; intros w w' m r Hans.
  - simpl. now intros [= <- _].
  - cbn [retrieve_rows row_email].
    destruct (_project_ancestries_by_user crm w user_email) as [w1 r1] eqn:Hu.
    pose proof (project_ancestries_by_user_answered _ _ _ _ _ Hans Hu)
      as Hans1.
    destruct r1 as [chains|e]; [now apply IH|].
    destruct e; try (now intros [= <- _]); now apply IH.
  - cbn [retrieve_rows row_email]. now intros [= <- _].
Qed.

Lemma for_project_ids_app (crm : CloudResourceManager) (user_email : string)
    (ids1 ids2 : list string) :
  forall (w : World) (ancestries : list (list AncestryResource)),
    for_project_ids crm user_email w (ids1 ++ ids2) ancestries
    = match for_project_ids crm user_email w ids1 ancestries with
      | (w1, Ok ancestries1) =>
          for_project_ids crm user_email w1 ids2 ancestries1
      | (w1, Raise e) => (w1, Raise e)
      end.
Proof.
  induction ids1 as [|p ids1 IH]; intros w ancestries; [reflexivity|].
  cbn [app for_project_ids].
  destruct (ensure_ancestry crm user_email w p) as [w1 [[]|e]]; [|reflexivity].
  destruct (cache w1 !! p); [apply IH | reflexivity].
Qed.

(** C2.  (1) A resolution request that meets a project [P] the cache does
    not hold sends one request for the ancestry of [P], and only one, and
    stores the chain made of what the remote service yields in the cache;
    when the call returns, that chain is what it returns for [P].  (2) Once
    the cache holds a chain for a project, a resolution request for any
    identity sends no ancestry request for that project, leaves its cache
    entry as it is, and returns that chain wherever the project occurs
    among the projects of the identity.  (3) Over a whole retrieval by a
    scanner whose cache starts empty, every project id is requested from
    the remote service at most once, the cache holds for every requested
    project the chain made of the answer to that one request, and in the
    result map the chains returned for one project to any two identities
    are equal, both being the chain of the cache. *)
Theorem ancestry_requested_at_most_once (crm : CloudResourceManager) :
  (forall w w1 w' user_email ids_before P ids_after ancestries answer
          failure r,
     project_ids_of crm user_email = Ok (ids_before ++ P :: ids_after) ->
     for_project_ids crm user_email w ids_before [] = (w1, Ok ancestries) ->
     cache w1 !! P = None ->
     get_project_ancestry crm (remote_lookups w1) user_email P
     = (answer, failure) ->
     _project_ancestries_by_user crm w user_email = (w', r) ->
     cache w' !! P = Some (map resource_of answer) /\
     (exists l0 l,
        remote_lookups w' = remote_lookups w ++ l0 ++ P :: l /\
        (P ∉ l0) /\ (P ∉ l)) /\
     forall chains,
       r = Ok chains ->
       chains !! length ids_before = Some (map resource_of answer)) /\
  (forall w user_email w' r P c,
     cache w !! P = Some c ->
     _project_ancestries_by_user crm w user_email = (w', r) ->
     (exists l, remote_lookups w' = remote_lookups w ++ l /\ P ∉ l) /\
     cache w' !! P = Some c /\
     forall chains project_ids i,
       r = Ok chains -> project_ids_of crm user_email = Ok project_ids ->
       project_ids !! i = Some P -> chains !! i = Some c) /\
  (forall engine rows,
     let out := _retrieve crm (mkWorld (mkScanner engine ∅) []) rows in
     NoDup (remote_lookups (fst out)) /\
     (forall p, p ∈ remote_lookups (fst out) ->
                is_Some (cache (fst out) !! p)) /\
     (forall k P,
        remote_lookups (fst out) !! k = Some P ->
        exists user_email,
          cache (fst out) !! P
          = Some (map resource_of
                    (fst (get_project_ancestry crm
                            (take k (remote_lookups (fst out)))
                            user_email P)))) /\
     forall m u1 u2 chains1 chains2,
       snd out = Ok m ->
       m !! u1 = Some chains1 -> m !! u2 = Some chains2 ->
       exists ids1 ids2,
         project_ids_of crm u1 = Ok ids1 /\
         project_ids_of crm u2 = Ok ids2 /\
         length chains1 = length ids1 /\ length chains2 = length ids2 /\
         forall i j P c1 c2,
           ids1 !! i = Some P -> ids2 !! j = Some P ->
           chains1 !! i = Some c1 -> chains2 !! j = Some c2 ->
           c1 = c2 /\ cache (fst out) !! P = Some c1).
Proof.
  split; [|split].
  - intros w w1 w' user_email ids_before P ids_after ancestries answer failure
      r Hids Hbefore Hmiss Hfetch Hrun.
    destruct (ensure_ancestry_miss crm user_email _ _ Hmiss)
      as (w2 & Hens & Hcache & Hlog).
    rewrite Hfetch in Hens, Hcache. cbn [fst snd] in Hens, Hcache.
    assert (cache w2 !! P = Some (map resource_of answer)) as HP.
    { rewrite Hcache. apply lookup_insert_eq. }
    destruct (for_project_ids_spec _ _ _ _ _ _ _ Hbefore) as [Hg0 Hacc].
    destruct Hg0 as (l0 & Hl0 & _ & Hnew0 & _).
    assert (P ∉ l0) as HPl0.
    { intros Hin. destruct (Hnew0 P Hin) as [_ [c Hc]]. congruence. }
    unfold _project_ancestries_by_user in Hrun.
    rewrite Hids, for_project_ids_app, Hbefore in Hrun.
    cbn [for_project_ids] in Hrun. rewrite Hens in Hrun.
    destruct failure as [e|].
    + injection Hrun as <- <-. split; [exact HP|]. split.
      * exists l0, []. rewrite Hlog, Hl0, <- app_assoc.
        split; [reflexivity|]. split; [exact HPl0 | apply not_elem_of_nil].
      * intros chains H. discriminate H.
    + rewrite HP in Hrun.
      destruct (for_project_ids_spec _ _ _ _ _ _ _ Hrun) as [Hg Hchains].
      split; [now apply (grows_lookup w2)|]. split.
      * destruct (grows_no_lookup _ _ P Hg) as (l & Hl & HPl); [eauto|].
        exists l0, l. rewrite Hl, Hlog, Hl0, <- !app_assoc.
        split; [reflexivity|]. split; [exact HPl0 | exact HPl].
      * intros chains Hr. destruct (Hchains chains Hr) as (new & -> & _).
        destruct (Hacc ancestries eq_refl) as (new0 & Hnew0' & Hall0).
        cbn [app] in Hnew0'. subst new0.
        rewrite (Forall2_length _ _ _ Hall0), <- app_assoc.
        rewrite lookup_app_r by lia. now rewrite Nat.sub_diag.
  - intros w user_email w' r P c Hc Hrun.
    destruct (project_ancestries_by_user_spec _ _ _ _ _ Hrun) as [Hg Hchains].
    split; [apply (grows_no_lookup _ _ _ Hg); eauto|].
    pose proof (grows_lookup _ _ _ _ Hg Hc) as Hc'. split; [exact Hc'|].
    intros chains project_ids i Hr Hids Hi.
    destruct (Hchains chains Hr) as (ids & Hids' & Hall).
    rewrite Hids in Hids'. injection Hids' as <-.
    destruct (Forall2_lookup_l _ _ _ _ _ Hall Hi) as (c' & Hci & Hc'').
    rewrite Hci. congruence.
  - intros engine rows out.
    destruct out as [w' r] eqn:Hout. unfold out, _retrieve in Hout.
    destruct (retrieve_rows_spec _ _ _ _ _ _ Hout) as [Hg Hm].
    destruct (lookups_once_grows _ _ (lookups_once_init engine) Hg)
      as [Hnd Hin].
    assert (answered crm w') as Hans.
    { apply (retrieve_rows_answered _ _ _ _ _ _) with (2 := Hout).
      intros k P Hk. discriminate Hk. }
    cbn [fst snd]. split; [exact Hnd|]. split; [exact Hin|].
    split; [exact Hans|].
    intros m u1 u2 chains1 chains2 -> Hu1 Hu2.
    assert (chains_from_cache crm w' m) as Hfrom.
    { apply Hm; [|reflexivity]. intros u cs Hu.
      rewrite lookup_empty in Hu. discriminate Hu. }
    destruct (Hfrom _ _ Hu1) as (ids1 & Hids1 & Hall1).
    destruct (Hfrom _ _ Hu2) as (ids2 & Hids2 & Hall2).
    exists ids1, ids2. split; [exact Hids1|]. split; [exact Hids2|].
    split; [symmetry; apply (Forall2_length _ _ _ Hall1)|].
    split; [symmetry; apply (Forall2_length _ _ _ Hall2)|].
    intros i j P c1 c2 Hi Hj Hc1 Hc2.
    pose proof (Forall2_lookup_lr _ _ _ _ _ _ Hall1 Hi Hc1) as H1.
    pose proof (Forall2_lookup_lr _ _ _ _ _ _ Hall2 Hj Hc2) as H2.
    simpl in H1, H2. split; [congruence | exact H1].
Qed.

(** ** A fetch that fails *)

Lemma reaches_grows (crm : CloudResourceManager) (w w' : World) :
  reaches crm w w' -> grows w w'.
Proof.
  induction 1 as [w | w w1 w2 u r Hrun _ IH]; [apply grows_refl|].
  apply grows_trans with w1; [|exact IH].
  apply (project_ancestries_by_user_spec _ _ _ _ _ Hrun).
Qed.


(** C9.  Let identity [user_email] resolve the projects
    [ids_before ++ P :: ids_after]; let the projects before [P] resolve
    without raising, let the cache then hold nothing for [P], and let the
    remote fetch for [P] yield [answer] and then raise [e].  Then the call
    raises [e], and the cache is left with an entry for [P] holding the
    chain built from [answer] alone, empty if nothing was yielded.  From
    then on, after any further calls, every resolution request, for any
    identity, keeps that entry, sends no ancestry request for [P], and
    returns that incomplete chain wherever [P] occurs among its projects. *)
Theorem failed_fetch_leaves_incomplete_chain (crm : CloudResourceManager)
    (w w1 : World) (user_email : string) (ids_before ids_after : list string)
    (P : string) (ancestries : list (list AncestryResource))
    (answer : list AncestorDescriptor) (e : exn) :
  project_ids_of crm user_email = Ok (ids_before ++ P :: ids_after) ->
  for_project_ids crm user_email w ids_before [] = (w1, Ok ancestries) ->
  cache w1 !! P = None ->
  get_project_ancestry crm (remote_lookups w1) user_email P
  = (answer, Some e) ->
  exists w',
    _project_ancestries_by_user crm w user_email = (w', Raise e) /\
    cache w' !! P = Some (map resource_of answer) /\
    remote_lookups w' = remote_lookups w1 ++ [P] /\
    forall w2 user_email2 w3 r,
      reaches crm w' w2 ->
      _project_ancestries_by_user crm w2 user_email2 = (w3, r) ->
      cache w3 !! P = Some (map resource_of answer) /\
      (exists l, remote_lookups w3 = remote_lookups w' ++ l /\ P ∉ l) /\
      forall chains project_ids i,
        r = Ok chains -> project_ids_of crm user_email2 = Ok project_ids ->
        project_ids !! i = Some P ->
        chains !! i = Some (map resource_of answer).
Proof.
  intros Hids Hbefore Hmiss Hfetch.
  destruct (ensure_ancestry_miss crm user_email _ _ Hmiss)
    as (w' & Hens & Hcache & Hlog).
  rewrite Hfetch in Hens, Hcache. cbn [fst snd] in Hens, Hcache.
  assert (cache w' !! P = Some (map resource_of answer)) as HP.
  { rewrite Hcache. apply lookup_insert_eq. }
  exists w'. split; [|split; [exact HP | split; [exact Hlog|]]].
  - unfold _project_ancestries_by_user. rewrite Hids, for_project_ids_app.
    rewrite Hbefore. cbn [for_project_ids]. rewrite Hens. reflexivity.
  - intros w2 user_email2 w3 r Hreach Hrun.
    pose proof (reaches_grows _ _ _ Hreach) as Hg.
    destruct (project_ancestries_by_user_spec _ _ _ _ _ Hrun)
      as [Hg' Hchains].
    pose proof (grows_trans _ _ _ Hg Hg') as Hg3.
    pose proof (grows_lookup _ _ _ _ Hg3 HP) as HP3.
    split; [exact HP3|].
    split; [apply (grows_no_lookup _ _ _ Hg3); eauto|].
    intros chains project_ids i Hr Hids2 Hi.
    destruct (Hchains chains Hr) as (ids & Hids' & Hall).
    rewrite Hids2 in Hids'. injection Hids' as <-.
    destruct (Forall2_lookup_l _ _ _ _ _ Hall Hi) as (c' & Hci & Hc'').
    rewrite Hci. congruence.
Qed.

(** ** Identities that cannot be resolved *)

Lemma project_ids_of_no_credential (crm : CloudResourceManager)
    (user_email : string) (e : exn) :
  get_delegated_credential crm user_email = Raise e ->
  project_ids_of crm user_email = Raise e.
Proof. intros H. unfold project_ids_of. now rewrite H. Qed.

Lemma project_id_result_no_projects (pages : list (option (list string))) :
  In None pages -> project_id_result pages = Raise KeyError.
Proof.
  induction pages as [|[ids|] pages IH]; [intros [] | | reflexivity].
  intros [H | H]; [discriminate|]. simpl. now rewrite IH.
Qed.

Lemma project_ids_of_no_projects (crm : CloudResourceManager)
    (user_email : string) (pages : list (option (list string))) :
  get_delegated_credential crm user_email = Ok tt ->
  get_projects crm user_email = Ok pages ->
  In None pages ->
  project_ids_of crm user_email = Raise KeyError.
Proof.
  intros Hcred Hpages Hnone. unfold project_ids_of. rewrite Hcred, Hpages.
  cbn [mbind result_bind]. now rewrite project_id_result_no_projects.
Qed.

Lemma retrieve_rows_app (crm : CloudResourceManager)
    (rows1 rows2 : list InventoryRow) :
  forall (w : World) (m : gmap string (list (list AncestryResource))),
    retrieve_rows crm w (rows1 ++ rows2) m
    = match retrieve_rows crm w rows1 m with
      | (w1, Ok m1) => retrieve_rows crm w1 rows2 m1
      | (w1, Raise e) => (w1, Raise e)
      end.
Proof.
  induction rows1 as [|[[u|]] rows1 IH]; intros w m; [reflexivity | |].
  - cbn [app retrieve_rows row_email].
    destruct (_project_ancestries_by_user crm w u) as [w1 [chains|e]];
      [apply IH|].
    destruct e; try reflexivity; apply IH.
  - reflexivity.
Qed.

(** What the loop of [_retrieve] does with one row that carries an email.
    (1) When the resolution returns, the chains are recorded under the
    email.  (2) When it raises the refresh error or [KeyError], the result
    map is left as it was and retrieval goes on with the next rows.
    (3) An identity whose credential cannot be obtained or refreshed,
    whose project listing raises the refresh error, or one of whose pages
    has no projects, raises in that way before any ancestry is resolved; a
    retrieval over rows that include it ends exactly as the retrieval over
    the other rows alone.  (4) When the resolution raises anything else,
    retrieval stops and raises it. *)
Lemma retrieve_skips_unresolvable_identity (crm : CloudResourceManager) :
  (forall w user_email rest m w' chains,
     _project_ancestries_by_user crm w user_email = (w', Ok chains) ->
     retrieve_rows crm w (mkInventoryRow (Some user_email) :: rest) m
     = retrieve_rows crm w' rest (<[user_email := chains]> m)) /\
  (forall w user_email rest m w' e,
     _project_ancestries_by_user crm w user_email = (w', Raise e) ->
     e = KeyError \/ e = RefreshError ->
     retrieve_rows crm w (mkInventoryRow (Some user_email) :: rest) m
     = retrieve_rows crm w' rest m) /\
  (forall w user_email before after,
     get_delegated_credential crm user_email = Raise RefreshError \/
     (get_delegated_credential crm user_email = Ok tt /\
      (get_projects crm user_email = Raise RefreshError \/
       exists pages, get_projects crm user_email = Ok pages /\
                     In None pages)) ->
     _retrieve crm w (before ++ mkInventoryRow (Some user_email) :: after)
     = _retrieve crm w (before ++ after)) /\
  (forall w user_email rest m w' e,
     _project_ancestries_by_user crm w user_email = (w', Raise e) ->
     e <> KeyError -> e <> RefreshError ->
     retrieve_rows crm w (mkInventoryRow (Some user_email) :: rest) m
     = (w', Raise e)).
Proof.
  split; [|split; [|split]].
  - intros w user_email rest m w' chains Hrun. cbn [retrieve_rows row_email].
    now rewrite Hrun.
  - intros w user_email rest m w' e Hrun He. cbn [retrieve_rows row_email].
    rewrite Hrun. destruct He as [-> | ->]; reflexivity.
  - intros w user_email before after Hu.
    assert (project_ids_of crm user_email = Raise KeyError \/
            project_ids_of crm user_email = Raise RefreshError) as Hids.
    { destruct Hu as [Hcred | [Hcred [Hlist | (pages & Hpages & Hnone)]]].
      - right. now apply project_ids_of_no_credential.
      - right. unfold project_ids_of. now rewrite Hcred, Hlist.
      - left. now apply project_ids_of_no_projects with pages. }
    unfold _retrieve. rewrite !retrieve_rows_app.
    destruct (retrieve_rows crm w before ∅) as [w1 [m1|e]]; [|reflexivity].
    cbn [retrieve_rows row_email]. unfold _project_ancestries_by_user.
    destruct Hids as [-> | ->]; reflexivity.
  - intros w user_email rest m w' e Hrun Hk Hr. cbn [retrieve_rows row_email].
    rewrite Hrun. destruct e; congruence.
Qed.

(** C7, where the code departs from the claim.  The refresh error raised
    while the ancestry of a project is fetched for one identity is
    absorbed, and that identity contributes no chain; but the cache entry
    made before the fetch stays, so the next identity that resolves the
    same project is given the truncated chain in place of its own.  Here
    [user2@example.com] alone is resolved to the chain of two resources
    and evaluated; after [user1@example.com], whose fetch is refused, the
    same identity is resolved to the empty chain, and evaluation raises
    [IndexError]: the failure of one identity has changed the chains of
    another and ended the scan. *)
Theorem failed_fetch_breaks_isolation :
  let full := [create_resource "shared_project" PROJECT;
               create_resource "1234567" ORGANIZATION] in
  let alone :=
    _retrieve refreshing_crm example_world
      (inventory_of ["user2@example.com"]) in
  let after_failure :=
    _retrieve refreshing_crm example_world
      (inventory_of ["user1@example.com"; "user2@example.com"]) in
  snd alone = Ok {[ "user2@example.com" := [full] ]} /\
  snd (_find_violations (scanner (fst alone))
         {[ "user2@example.com" := [full] ]})
  = Ok [violation_of {| rule_name := Some "default"; rule_index := 0;
                        rules := create_resource "567890" ORGANIZATION |}
          "user2@example.com" (create_resource "shared_project" PROJECT)
          full] /\
  snd after_failure = Ok {[ "user2@example.com" := [[]] ]} /\
  snd (_find_violations (scanner (fst after_failure))
         {[ "user2@example.com" := [[]] ]})
  = Raise IndexError.
Proof. repeat split; reflexivity. Qed.

(** ** The cases of the spec *)

Example example_engine_built :
  build_rule_book (Engine_init example_rules) (Some []) = (example_engine, Ok tt).
Proof. reflexivity. Qed.

(** The allow case: no violation. *)
Lemma find_policy_violations_one_per_absent_ancestor_witness :
  rule_book example_engine = Some example_book /\
  exists g,
    find_policy_violations example_engine "user1@example.com" allowed_chain
      false = (example_engine, Ok g) /\
    consume g = Ok [].
Proof.
  split; [reflexivity|].
  destruct (find_policy_violations_one_per_absent_ancestor example_engine
              example_book "user1@example.com"
              (create_resource "13579" PROJECT)
              [create_resource "24680" FOLDER;
               create_resource "567890" ORGANIZATION] eq_refl)
    as (g & vs & Hfind & Hconsume & Hvs & _).
  exists g. split; [exact Hfind|]. rewrite Hconsume, Hvs. reflexivity.
Defined.

(** The deny case: the violation names project 13579 and the member. *)
Lemma violation_attributed_to_leaf_and_member_witness :
  exists g vs v,
    find_policy_violations example_engine "user2@example.com" denied_chain
      false = (example_engine, Ok g) /\
    consume g = Ok vs /\ In v vs /\
    RuleViolation.resource_id v = "13579" /\
    RuleViolation.member v = "user2@example.com".
Proof.
  eexists. eexists. eexists.
  split; [reflexivity|]. split; [reflexivity|]. split; [left; reflexivity|].
  destruct (violation_attributed_to_leaf_and_member example_engine
              example_engine "user2@example.com"
              (create_resource "13579" PROJECT)
              [create_resource "24680" FOLDER;
               create_resource "1357924680" ORGANIZATION]
              false _ _ _ eq_refl eq_refl (or_introl eq_refl))
    as (book & key & rule & _ & _ & _ & _ & Hid & _ & _ & Hmember & _).
  split; [exact Hid | exact Hmember].
Defined.

(** The empty chain against the one-rule book. *)
Lemma find_policy_violations_needs_leaf_witness :
  rule_book example_engine = Some example_book /\
  exists g,
    find_policy_violations example_engine "user1@example.com" [] false
    = (example_engine, Ok g) /\
    consume g = Raise IndexError.
Proof.
  split; [reflexivity|].
  destruct (find_policy_violations_needs_leaf example_engine example_book
              "user1@example.com" eq_refl [])
    as (g & Hfind & _ & Hempty & _).
  exists g. split; [exact Hfind|]. apply Hempty; [reflexivity | discriminate].
Defined.

(** The first project of the example is fetched and stored; over two
    identities with the same projects, each project is requested once. *)
Lemma ancestry_requested_at_most_once_witness :
  _ancestries (scanner (fst (_project_ancestries_by_user example_crm
                               example_world "user1@example.com")))
    !! "test_project_1"
  = Some [create_resource "test_project_1" PROJECT;
          create_resource "1234567" ORGANIZATION] /\
  NoDup (remote_lookups
           (fst (_retrieve example_crm example_world
                   (inventory_of ["user1@example.com";
                                  "user2@example.com"])))).
Proof.
  split.
  - apply (proj1 (ancestry_requested_at_most_once example_crm)
             example_world example_world _ "user1@example.com" []
             "test_project_1" ["test_project_2"] []
             [mkDescriptor "test_project_1" PROJECT;
              mkDescriptor "1234567" ORGANIZATION] None
             (snd (_project_ancestries_by_user example_crm example_world
                     "user1@example.com"))
             eq_refl eq_refl eq_refl eq_refl).
    apply surjective_pairing.
  - exact (proj1 (proj2 (proj2 (ancestry_requested_at_most_once example_crm))
                    example_engine
                    (inventory_of ["user1@example.com";
                                   "user2@example.com"]))).
Defined.

(** The fetch for [test_project_2] fails after one element: the chain of
    one element stays in the cache. *)
Lemma failed_fetch_leaves_incomplete_chain_witness :
  exists w',
    _project_ancestries_by_user example_crm example_world "user1@example.com"
    = (w', Raise RefreshError) /\
    _ancestries (scanner w') !! "test_project_2"
    = Some [create_resource "test_project_2" PROJECT].
Proof.
  destruct (failed_fetch_leaves_incomplete_chain example_crm example_world
              (fst (for_project_ids example_crm "user1@example.com"
                      example_world ["test_project_1"] []))
              "user1@example.com" ["test_project_1"] []
              "test_project_2"
              [[create_resource "test_project_1" PROJECT;
                create_resource "1234567" ORGANIZATION]]
              [mkDescriptor "test_project_2" PROJECT] RefreshError
              eq_refl eq_refl eq_refl eq_refl)
    as (w' & Hrun & Hcache & _).
  exists w'. split; [exact Hrun | exact Hcache].
Defined.

(** ** More on validation and on the rule book *)

(** X1.  [validate_ancestor] returns normally exactly for the strings made
    of [organizations/] or [folders/], one digit or more, and possibly one
    final newline.  A missing or empty ancestor raises the schema error
    with the message [Missing ancestor in rule i]; any other string raises
    it with the message [Ancestor in rule i must start with ...]. *)
Theorem validate_ancestor_outcome (rule_index : nat) :
  (forall ancestor,
     validate_ancestor ancestor rule_index = Ok tt <->
     exists a, ancestor = Some a /\ accepted_ancestor a) /\
  validate_ancestor None rule_index
  = Raise (InvalidRulesSchemaError (missing_ancestor_msg rule_index)) /\
  validate_ancestor (Some "") rule_index
  = Raise (InvalidRulesSchemaError (missing_ancestor_msg rule_index)) /\
  (forall a, a <> "" -> ~ accepted_ancestor a ->
     validate_ancestor (Some a) rule_index
     = Raise (InvalidRulesSchemaError (bad_ancestor_msg rule_index))).
Proof.
  split; [|split; [reflexivity | split; [reflexivity|]]].
  - intros [a|].
    + rewrite validate_ancestor_ok_iff. split.
      * intros H. exists a. split; [reflexivity | exact H].
      * intros (a' & [= <-] & H). exact H.
    + split; [discriminate | intros (a & H & _); discriminate].
  - intros a Hne Hacc.
    destruct (validate_ancestor (Some a) rule_index) as [[]|e] eqn:E.
    + apply validate_ancestor_ok_iff in E. now destruct Hacc.
    + unfold validate_ancestor in E. destruct a as [|c a]; [congruence|].
      change ((String.length (String c a) <? 1)%nat) with false in E.
      cbv iota in E.
      destruct (re_match ancestor_pattern (String c a)); [discriminate|].
      symmetry. exact E.
Qed.

(** A string of one kind, rejected with the second message. *)
Lemma validate_ancestor_outcome_witness :
  validate_ancestor (Some "policy/12345") 7
  = Raise (InvalidRulesSchemaError (bad_ancestor_msg 7)).
Proof.
  apply (proj2 (proj2 (proj2 (validate_ancestor_outcome 7)))).
  - discriminate.
  - intros [(ds & _ & _ & [H | H]) | (s' & H & ds & _ & _ & [-> | ->])];
      discriminate H.
Defined.

Lemma process_rule_raises (rule_def : RuleDef) (i : nat) (e : exn) :
  validate_ancestor (def_ancestor rule_def) i = Raise e ->
  process_rule rule_def i = Raise e.
Proof. intros H. unfold process_rule. now rewrite H. Qed.

(** [add_rule] raises on an entry exactly what validation raises on it,
    and adds a rule or keeps the book when validation passes. *)
Lemma add_loaded_rule_outcome (self : ExternalProjectAccessRuleBook)
    (entry : LoadedRule) (i : nat) :
  match validate_loaded entry i with
  | Ok _ =>
      exists rule_def ancestor,
        entry = WellTyped rule_def /\
        process_rule rule_def i = Ok ancestor /\
        (r_type ancestor = ORGANIZATION \/ r_type ancestor = FOLDER) /\
        exists self',
          add_loaded_rule self entry i = Ok self' /\
          (resource_rules_map self' = resource_rules_map self \/
           resource_rules_map self'
           = resource_rules_map self
             ++ [(ancestor, {| rule_name := def_name rule_def;
                               rule_index := i; rules := ancestor |})])
  | Raise e => add_loaded_rule self entry i = Raise e
  end.
Proof.
  destruct entry as [rule_def | name [|]]; cbn [validate_loaded add_loaded_rule];
    [|reflexivity | reflexivity].
  destruct (validate_ancestor (def_ancestor rule_def) i) as [[]|e] eqn:E.
  - destruct (process_rule_validated _ _ E) as (ancestor & Hp & Htype).
    exists rule_def, ancestor. split; [reflexivity|]. split; [exact Hp|].
    split; [exact Htype|]. unfold add_rule. rewrite Hp.
    cbn [mbind result_bind]. destruct (negb _); eexists; split;
      try reflexivity; [now right | now left].
  - unfold add_rule. now rewrite (process_rule_raises _ _ _ E).
Qed.

(** How the loop of [add_rules] ends: normally when every entry passes
    validation, and otherwise with the error of the first entry that does
    not.  In both cases the book has at most one rule more for each entry,
    and every rule added comes from a [WellTyped] entry that stands,
    together with all the entries before it, among those that pass. *)
Lemma add_rules_loop_outcome (entries : list LoadedRule) :
  forall (self book : ExternalProjectAccessRuleBook) (i : nat)
         (r : result unit),
    add_rules_loop self i entries = (book, r) ->
    match r with
    | Ok _ =>
        forall n entry, entries !! n = Some entry ->
                        validate_loaded entry (i + n) = Ok tt
    | Raise e =>
        exists n entry,
          entries !! n = Some entry /\
          validate_loaded entry (i + n) = Raise e /\
          (forall j ej, j < n -> entries !! j = Some ej ->
                        validate_loaded ej (i + j) = Ok tt) /\
          add_rules_loop self i (take n entries) = (book, Ok tt)
    end /\
    length (resource_rules_map book)
    <= length (resource_rules_map self) + length entries /\
    forall kr, In kr (resource_rules_map book) ->
      In kr (resource_rules_map self) \/
      exists n rule_def,
        entries !! n = Some (WellTyped rule_def) /\
        process_rule rule_def (i + n) = Ok (fst kr) /\
        snd kr = {| rule_name := def_name rule_def; rule_index := i + n;
                    rules := fst kr |} /\
        (r_type (fst kr) = ORGANIZATION \/ r_type (fst kr) = FOLDER) /\
        forall j ej, j <= n -> entries !! j = Some ej ->
                     validate_loaded ej (i + j) = Ok tt.
Proof.
  induction entries as [|entry rest IH]; intros self book i r.
  - simpl. intros [= <- <-]. split; [intros n entry H; discriminate H|].
    split; [lia | tauto].
  - cbn [add_rules_loop].
    pose proof (add_loaded_rule_outcome self entry i) as Hentry.
    destruct (validate_loaded entry i) as [[]|e] eqn:Hv.
    + destruct Hentry as (d & ancestor & -> & Hp & Htype & self' & Hadd & Hitems).
      rewrite Hadd. intros Hrest.
      destruct (IH _ _ _ _ Hrest) as (Hend & Hlen & Hin).
      assert (forall j ej, j <= 0 -> (WellTyped d :: rest) !! j = Some ej ->
                validate_loaded ej (i + j) = Ok tt) as Hzero.
      { intros j ej Hj Hej. assert (j = 0) as -> by lia.
        injection Hej as <-. now rewrite Nat.add_0_r. }
      split; [|split].
      * destruct r as [[]|e].
        -- intros [|n] entry Hn.
           ++ apply (Hzero 0 entry); [lia | exact Hn].
           ++ replace (i + S n) with (S i + n) by lia. now apply Hend.
        -- destruct Hend as (n & entry & Hn & He & Hbefore & Htake).
           exists (S n), entry. replace (i + S n) with (S i + n) by lia.
           split; [exact Hn|]. split; [exact He|]. split.
           ++ intros [|j] ej Hj Hej.
              ** apply (Hzero 0 ej); [lia | exact Hej].
              ** replace (i + S j) with (S i + j) by lia.
                 apply Hbefore; [lia | exact Hej].
           ++ cbn [take add_rules_loop]. now rewrite Hadd.
      * destruct Hitems as [Heq | Heq]; rewrite Heq in Hlen;
          [|rewrite length_app in Hlen]; simpl in *; lia.
      * intros kr Hkr.
        destruct (Hin kr Hkr) as [Hself' | (n & d' & Hn & Hpn & Hr & Ht & Hv')].
        -- assert (In kr (resource_rules_map self) \/
                   kr = (ancestor, {| rule_name := def_name d;
                                      rule_index := i; rules := ancestor |}))
             as [Hself | ->].
           { destruct Hitems as [Heq | Heq]; rewrite Heq in Hself';
               [now left|].
             apply in_app_or in Hself' as [H | [<- | []]]; [now left | now right]. }
           ++ now left.
           ++ right. exists 0, d. rewrite Nat.add_0_r.
              split; [reflexivity|]. split; [exact Hp|].
              split; [reflexivity|]. split; [exact Htype | exact Hzero].
        -- right. exists (S n), d'. replace (i + S n) with (S i + n) by lia.
           split; [exact Hn|]. split; [exact Hpn|]. split; [exact Hr|].
           split; [exact Ht|]. intros [|j] ej Hj Hej.
           ++ apply (Hzero 0 ej); [lia | exact Hej].
           ++ replace (i + S j) with (S i + j) by lia.
              apply Hv'; [lia | exact Hej].
    + rewrite Hentry. intros [= <- <-]. split; [|split; [lia | tauto]].
      exists 0, entry. rewrite Nat.add_0_r. split; [reflexivity|].
      split; [exact Hv|]. split; [intros j ej Hj; lia | reflexivity].
Qed.

(** The first entry that does not pass validation is one entry. *)
Lemma first_failure_unique (entries : list LoadedRule) (i n n' : nat)
    (entry entry' : LoadedRule) (e e' : exn) :
  entries !! n = Some entry -> validate_loaded entry (i + n) = Raise e ->
  (forall j ej, j < n -> entries !! j = Some ej ->
                validate_loaded ej (i + j) = Ok tt) ->
  entries !! n' = Some entry' -> validate_loaded entry' (i + n') = Raise e' ->
  (forall j ej, j < n' -> entries !! j = Some ej ->
                validate_loaded ej (i + j) = Ok tt) ->
  n = n' /\ e = e'.
Proof.
  intros Hn He Hbefore Hn' He' Hbefore'.
  destruct (Nat.lt_trichotomy n n') as [Hlt | [<- | Hlt]].
  - rewrite (Hbefore' n entry Hlt Hn) in He. discriminate He.
  - split; [reflexivity|]. congruence.
  - rewrite (Hbefore n' entry' Hlt Hn') in He'. discriminate He'.
Qed.

Lemma validate_loaded_raises (entry : LoadedRule) (i : nat) (e : exn) :
  validate_loaded entry i = Raise e ->
  e = TypeError \/
  e = InvalidRulesSchemaError (missing_ancestor_msg i) \/
  e = InvalidRulesSchemaError (bad_ancestor_msg i).
Proof.
  destruct entry as [d | name [|]]; cbn [validate_loaded].
  - intros H. right. exact (validate_ancestor_raises _ _ _ H).
  - intros [= <-]. now left.
  - intros [= <-]. right. now left.
Qed.

(** X2.  Building a rule book stops at the first entry that does not pass
    validation.  When that entry raises the schema error (a missing,
    empty or ill-formed ancestor, or a falsy value that is no string), the
    build raises that error, which cites the index of the entry, and
    [build_rule_book] raises it too and leaves the engine as it was, its
    previous rule book included.  When that entry raises [TypeError] (a
    truthy value that is no string), the build ends there without an
    error: it returns the book made of the entries before that one, and
    the entries after it are never read. *)
Theorem rule_book_build_raises_first_schema_error
    (global_configs : option GlobalConfigs) (entries : list LoadedRule)
    (n : nat) (entry : LoadedRule) (e : exn) :
  entries !! n = Some entry ->
  validate_loaded entry n = Raise e ->
  (forall j ej, j < n -> entries !! j = Some ej ->
     validate_loaded ej j = Ok tt) ->
  let file := Some (LoadedRuleDefs (Some entries)) in
  (e = TypeError \/
   e = InvalidRulesSchemaError (missing_ancestor_msg n) \/
   e = InvalidRulesSchemaError (bad_ancestor_msg n)) /\
  (e <> TypeError ->
   RuleBook_init global_configs file = Raise e /\
   forall previous configs,
     build_rule_book (mkEngine file previous) (Some configs)
     = (mkEngine file previous, Raise e)) /\
  (e = TypeError ->
   (exists book, RuleBook_init global_configs file = Ok book) /\
   RuleBook_init global_configs file
   = RuleBook_init global_configs
       (Some (LoadedRuleDefs (Some (take n entries))))).
Proof.
  intros Hn He Hok file.
  split; [exact (validate_loaded_raises _ _ _ He)|].
  destruct (add_rules_loop {| resource_rules_map := [] |} 0 entries)
    as [book r] eqn:Hloop.
  destruct (add_rules_loop_outcome _ _ _ _ _ Hloop) as (Hend & _ & _).
  cbn [Nat.add] in Hend.
  destruct r as [[]|e'].
  { rewrite (Hend n entry Hn) in He. discriminate He. }
  destruct Hend as (n' & entry' & Hn' & He' & Hok' & Htake).
  destruct (first_failure_unique entries 0 n n' entry entry' e e'
              Hn He Hok Hn' He' Hok') as [<- <-].
  assert (forall gc, RuleBook_init gc file
                     = match e with TypeError => Ok book | _ => Raise e end)
    as Hinit.
  { intros gc. unfold RuleBook_init, file, add_rules. cbn [defs_rules].
    rewrite Hloop. now destruct e. }
  split.
  - intros Hne. rewrite !Hinit.
    assert (match e with TypeError => Ok book | _ => Raise e end = Raise e)
      as Hraise by (destruct e; congruence).
    split; [exact Hraise|]. intros previous configs.
    unfold build_rule_book. cbn [rules_file]. now rewrite Hinit, Hraise.
  - intros ->. rewrite Hinit. split; [eauto|].
    unfold RuleBook_init, add_rules. cbn [defs_rules]. now rewrite Htake.
Qed.

(** A file whose second entry has a number for ancestor: the build ends
    there and keeps the rule of the first entry; a file whose second entry
    is ill-formed: the build raises. *)
Lemma rule_book_build_raises_first_schema_error_witness :
  RuleBook_init None
    (Some (LoadedRuleDefs
             (Some [WellTyped (mkRuleDef (Some "good") (Some "folders/42"));
                    IllTyped (Some "number") true;
                    WellTyped (mkRuleDef (Some "late")
                                 (Some "organizations/567890"))])))
  = RuleBook_init None
      (Some (LoadedRuleDefs
               (Some [WellTyped (mkRuleDef (Some "good")
                                   (Some "folders/42"))]))) /\
  RuleBook_init None
    (Some (LoadedRuleDefs
             (Some [WellTyped (mkRuleDef (Some "good") (Some "folders/42"));
                    WellTyped (mkRuleDef (Some "bad") (Some "policy/12345"));
                    IllTyped (Some "number") true])))
  = Raise (InvalidRulesSchemaError (bad_ancestor_msg 1)).
Proof.
  split.
  - apply (rule_book_build_raises_first_schema_error None
             [WellTyped (mkRuleDef (Some "good") (Some "folders/42"));
              IllTyped (Some "number") true;
              WellTyped (mkRuleDef (Some "late")
                           (Some "organizations/567890"))]
             1 (IllTyped (Some "number") true) TypeError).
    + reflexivity.
    + reflexivity.
    + intros [|j] ej Hj Hej; [|lia]. injection Hej as <-. reflexivity.
    + reflexivity.
  - apply (rule_book_build_raises_first_schema_error None
             [WellTyped (mkRuleDef (Some "good") (Some "folders/42"));
              WellTyped (mkRuleDef (Some "bad") (Some "policy/12345"));
              IllTyped (Some "number") true]
             1 (WellTyped (mkRuleDef (Some "bad") (Some "policy/12345")))).
    + reflexivity.
    + reflexivity.
    + intros [|j] ej Hj Hej; [|lia]. injection Hej as <-. reflexivity.
    + discriminate.
Defined.

(** X3.  Building a rule book returns normally exactly when the first
    entry that does not pass validation, if there is one, raises
    [TypeError] and not the schema error.  The book returned has at most
    as many rules as there are entries, and every rule in it comes from an
    entry that stands, with all the entries before it, among those that
    pass validation: the rule sits under the ancestor parsed from that
    entry, an organization or a folder, and carries its name and index. *)
Theorem rule_book_build_succeeds_iff_no_schema_error
    (global_configs : option GlobalConfigs) (entries : list LoadedRule) :
  let file := Some (LoadedRuleDefs (Some entries)) in
  ((exists book, RuleBook_init global_configs file = Ok book) <->
   (forall n entry e,
      entries !! n = Some entry ->
      validate_loaded entry n = Raise e ->
      (forall j ej, j < n -> entries !! j = Some ej ->
         validate_loaded ej j = Ok tt) ->
      e = TypeError)) /\
  (forall book,
     RuleBook_init global_configs file = Ok book ->
     length (resource_rules_map book) <= length entries /\
     forall ancestor rule,
       In (ancestor, rule) (resource_rules_map book) ->
       exists n rule_def,
         entries !! n = Some (WellTyped rule_def) /\
         process_rule rule_def n = Ok ancestor /\
         rule = {| rule_name := def_name rule_def; rule_index := n;
                   rules := ancestor |} /\
         (r_type ancestor = ORGANIZATION \/ r_type ancestor = FOLDER) /\
         forall j ej, j <= n -> entries !! j = Some ej ->
                      validate_loaded ej j = Ok tt).
Proof.
  intros file. unfold RuleBook_init, file, add_rules. cbn [defs_rules].
  destruct (add_rules_loop {| resource_rules_map := [] |} 0 entries)
    as [book0 r] eqn:Hloop.
  destruct (add_rules_loop_outcome _ _ _ _ _ Hloop) as (Hend & Hlen & Hin).
  cbn [Nat.add] in Hend, Hin.
  assert (forall book,
            match r with
            | Ok _ => Ok book0
            | Raise TypeError => Ok book0
            | Raise e => Raise e
            end = Ok book -> book = book0) as Hbook.
  { intros book. destruct r as [[]|e]; [congruence|].
    destruct e; congruence. }
  split; [split|].
  - intros (book & Hbuild) n entry e Hn He Hok.
    destruct r as [[]|e'].
    + rewrite (Hend n entry Hn) in He. discriminate He.
    + destruct Hend as (n' & entry' & Hn' & He' & Hok' & _).
      destruct (first_failure_unique entries 0 n n' entry entry' e e'
                  Hn He Hok Hn' He' Hok') as [_ ->].
      destruct e'; try discriminate Hbuild. reflexivity.
  - intros Hfirst. destruct r as [[]|e']; [eauto|].
    destruct Hend as (n' & entry' & Hn' & He' & Hok' & _).
    rewrite (Hfirst n' entry' e' Hn' He' Hok'). eauto.
  - intros book Hbuild. apply Hbook in Hbuild. subst book.
    split; [exact Hlen|]. intros ancestor rule Hkr.
    destruct (Hin _ Hkr) as [[] | (n & d & Hn & Hp & Hr & Ht & Hv)].
    exists n, d. cbn [fst snd] in *. tauto.
Qed.

(** Three entries that pass validation, two of them naming one ancestor,
    and a fourth whose ancestor is a number. *)
Lemma rule_book_build_succeeds_iff_no_schema_error_witness :
  exists book,
    RuleBook_init None
      (Some (LoadedRuleDefs
               (Some [WellTyped (mkRuleDef (Some "a")
                                   (Some "organizations/567890"));
                      WellTyped (mkRuleDef (Some "b") (Some "folders/42"));
                      WellTyped (mkRuleDef (Some "c")
                                   (Some "organizations/567890"));
                      IllTyped (Some "d") true])))
    = Ok book /\
    length (resource_rules_map book) <= 4.
Proof.
  eexists. split; [reflexivity|].
  apply (proj2 (rule_book_build_succeeds_iff_no_schema_error None
                  [WellTyped (mkRuleDef (Some "a")
                                (Some "organizations/567890"));
                   WellTyped (mkRuleDef (Some "b") (Some "folders/42"));
                   WellTyped (mkRuleDef (Some "c")
                                (Some "organizations/567890"));
                   IllTyped (Some "d") true])).
  reflexivity.
Defined.

Lemma is_digit_not_slash (c : ascii) :
  is_digit c = true -> Ascii.eqb c "/" = false.
Proof.
  intros Hc. apply Ascii.eqb_neq. intros ->. discriminate Hc.
Qed.

Lemma append_cons_assoc (cur : string) (c : ascii) (s : string) :
  (cur +:+ String c EmptyString) +:+ s = cur +:+ String c s.
Proof.
  induction cur as [|d cur IH]; [reflexivity|].
  change (String d ((cur +:+ String c EmptyString) +:+ s)
          = String d (cur +:+ String c s)).
  now rewrite IH.
Qed.

(** A run of digits holds no separator. *)
Lemma split_slash_from_digits (ds : string) :
  forall cur, all_digits ds = true -> split_slash_from cur ds = [cur +:+ ds].
Proof.
  induction ds as [|c ds IH]; intros cur Hds.
  - simpl. f_equal. induction cur as [|d cur IHc]; [reflexivity|].
    change (String d cur = String d (cur +:+ EmptyString)). now rewrite <- IHc.
  - unfold all_digits in Hds. simpl in Hds.
    apply andb_true_iff in Hds as [Hc Hds]. cbn [split_slash_from].
    rewrite (is_digit_not_slash c Hc), IH by exact Hds.
    now rewrite append_cons_assoc.
Qed.

(** X4.  For an ancestor [organizations/<digits>] or [folders/<digits>],
    [process_rule] returns the resource of the type named by the prefix,
    whose id is the run of digits; the name and the index of the
    definition play no part. *)
Theorem process_rule_parses_ancestor (name : option string) (ds : string)
    (rule_index : nat) :
  ds <> "" -> all_digits ds = true ->
  process_rule (mkRuleDef name (Some ("organizations/" +:+ ds))) rule_index
  = Ok (create_resource ds ORGANIZATION) /\
  process_rule (mkRuleDef name (Some ("folders/" +:+ ds))) rule_index
  = Ok (create_resource ds FOLDER).
Proof.
  intros Hne Hds.
  assert (forall a, ancestor_form a ->
                    validate_ancestor (Some a) rule_index = Ok tt) as Hv.
  { intros a Ha. apply validate_ancestor_ok_iff. now left. }
  split; unfold process_rule; cbn [def_ancestor].
  - rewrite Hv by (exists ds; tauto). cbn [mbind result_bind].
    change (split_slash ("organizations/" +:+ ds))
      with ("organizations" :: split_slash_from "" ds).
    rewrite split_slash_from_digits by exact Hds. reflexivity.
  - rewrite Hv by (exists ds; tauto). cbn [mbind result_bind].
    change (split_slash ("folders/" +:+ ds))
      with ("folders" :: split_slash_from "" ds).
    rewrite split_slash_from_digits by exact Hds. reflexivity.
Qed.

(** The good rule of the tests. *)
Lemma process_rule_parses_ancestor_witness :
  process_rule (mkRuleDef (Some "default") (Some "organizations/567890")) 0
  = Ok (create_resource "567890" ORGANIZATION).
Proof.
  apply (process_rule_parses_ancestor (Some "default") "567890" 0);
    [discriminate | reflexivity].
Defined.

(** ** More on evaluation *)

Lemma contains_app (chain extra : list AncestryResource)
    (x : AncestryResource) :
  contains (chain ++ extra) x = contains chain x || contains extra x.
Proof. unfold contains. apply existsb_app. Qed.

Lemma rules_violated_app (book : ExternalProjectAccessRuleBook)
    (chain extra : list AncestryResource) :
  sublist (rules_violated book (chain ++ extra)) (rules_violated book chain).
Proof.
  unfold rules_violated.
  induction (resource_rules_map book) as [|kr m IH]; [constructor|].
  cbn [List.filter]. rewrite contains_app.
  destruct (contains chain (fst kr)); cbn [orb negb]; [exact IH|].
  destruct (contains extra (fst kr)); cbn [negb map].
  - now apply sublist_cons.
  - now apply sublist_skip.
Qed.

Lemma sublist_map {A B : Type} (f : A -> B) (l1 l2 : list A) :
  sublist l1 l2 -> sublist (map f l1) (map f l2).
Proof.
  induction 1; simpl; [constructor | now apply sublist_skip
                       | now apply sublist_cons].
Qed.

(** X5.  Extending a chain with further ancestors never adds a violation:
    the rules violated by the longer chain are among those violated by the
    shorter one, in the same order. *)
Theorem longer_chain_violates_fewer_rules
    (self : ExternalProjectAccessRulesEngine)
    (book : ExternalProjectAccessRuleBook) (member : string)
    (leaf : AncestryResource) (rest extra : list AncestryResource) :
  rule_book self = Some book ->
  exists g g' vs vs',
    find_policy_violations self member (leaf :: rest) false = (self, Ok g) /\
    find_policy_violations self member (leaf :: rest ++ extra) false
    = (self, Ok g') /\
    consume g = Ok vs /\ consume g' = Ok vs' /\
    sublist (map (fun v => (RuleViolation.rule_index v,
                            RuleViolation.rule_name v,
                            RuleViolation.rule_ancestor v)) vs')
      (map (fun v => (RuleViolation.rule_index v,
                      RuleViolation.rule_name v,
                      RuleViolation.rule_ancestor v)) vs) /\
    length vs' <= length vs.
Proof.
  intros Hbook. do 4 eexists.
  split; [apply find_policy_violations_reuse; exact Hbook|].
  split; [apply find_policy_violations_reuse; exact Hbook|].
  split; [apply consume_policy_violations|].
  split; [apply consume_policy_violations|].
  pose proof (rules_violated_app book (leaf :: rest) extra) as Hsub.
  cbn [app] in Hsub. split.
  - rewrite !map_map. cbn [violation_of RuleViolation.rule_index
      RuleViolation.rule_name RuleViolation.rule_ancestor].
    apply (sublist_map (fun rule : Rule =>
             (rule_index rule, rule_name rule, PyStr (r_name (rules rule))))).
    exact Hsub.
  - rewrite !length_map. now apply sublist_length.
Qed.

(** The deny case, and the same chain with the organization of the rule
    added: the violation goes away. *)
Lemma longer_chain_violates_fewer_rules_witness :
  exists g g',
    find_policy_violations example_engine "user2@example.com" denied_chain
      false = (example_engine, Ok g) /\
    find_policy_violations example_engine "user2@example.com"
      (denied_chain ++ [create_resource "567890" ORGANIZATION]) false
    = (example_engine, Ok g') /\
    length g' <= length g.
Proof.
  destruct (longer_chain_violates_fewer_rules example_engine example_book
              "user2@example.com" (create_resource "13579" PROJECT)
              [create_resource "24680" FOLDER;
               create_resource "1357924680" ORGANIZATION]
              [create_resource "567890" ORGANIZATION] eq_refl)
    as (g & g' & vs & vs' & Hg & Hg' & _).
  exists g, g'. split; [exact Hg|]. split; [exact Hg'|].
  injection Hg as <-. injection Hg' as <-. simpl. lia.
Defined.

(** ** Evaluation of a whole retrieval *)

Lemma rules_violated_empty_chain (book : ExternalProjectAccessRuleBook) :
  rules_violated book [] = map snd (resource_rules_map book).
Proof.
  unfold rules_violated. f_equal.
  induction (resource_rules_map book) as [|kr m IH]; [reflexivity|].
  simpl. f_equal. exact IH.
Qed.

(** Consuming the violations of one chain. *)
Lemma consume_chain (book : ExternalProjectAccessRuleBook) (member : string)
    (chain : list AncestryResource) :
  consume (concat (map (fun rule => policy_violation rule member chain)
                     (rules_violated book chain)))
  = match chain with
    | [] => if book_has_rule book then Raise IndexError else Ok []
    | _ :: _ => Ok (violations_for book member chain)
    end.
Proof.
  destruct chain as [|leaf rest].
  - rewrite rules_violated_empty_chain. unfold book_has_rule.
    destruct (resource_rules_map book); reflexivity.
  - apply consume_policy_violations.
Qed.

Lemma violations_for_no_rule (book : ExternalProjectAccessRuleBook)
    (member : string) (chain : list AncestryResource) :
  book_has_rule book = false -> violations_for book member chain = [].
Proof.
  unfold book_has_rule, violations_for, rules_violated.
  destruct (resource_rules_map book); [|discriminate].
  now destruct chain.
Qed.

Lemma for_project_ancestries_run (engine : ExternalProjectAccessRulesEngine)
    (book : ExternalProjectAccessRuleBook) (member : string)
    (chains : list (list AncestryResource)) :
  rule_book engine = Some book ->
  forall all_violations,
    for_project_ancestries engine member chains all_violations
    = (engine,
       if has_empty_chain chains && book_has_rule book then Raise IndexError
       else Ok (all_violations
                ++ flat_map (violations_for book member) chains)).
Proof.
  intros Hbook. induction chains as [|chain chains IH]; intros acc.
  - simpl. now rewrite app_nil_r.
  - cbn [for_project_ancestries].
    rewrite (find_policy_violations_reuse _ _ _ _ Hbook), consume_chain.
    destruct chain as [|leaf rest].
    + cbn [has_empty_chain existsb orb andb flat_map].
      destruct (book_has_rule book) eqn:Hb; [reflexivity|].
      rewrite IH, andb_false_r, app_nil_r. reflexivity.
    + rewrite IH. cbn [has_empty_chain existsb orb flat_map].
      fold (has_empty_chain chains).
      destruct (has_empty_chain chains && book_has_rule book);
        [reflexivity|]. now rewrite app_assoc.
Qed.

Lemma for_ancestries_by_user_run (engine : ExternalProjectAccessRulesEngine)
    (book : ExternalProjectAccessRuleBook)
    (items : list (string * list (list AncestryResource))) :
  rule_book engine = Some book ->
  forall all_violations,
    for_ancestries_by_user engine items all_violations
    = (engine,
       if existsb (fun item => has_empty_chain (snd item)) items
          && book_has_rule book
       then Raise IndexError
       else Ok (all_violations
                ++ flat_map (fun item => flat_map (violations_for book
                                                     (fst item)) (snd item))
                     items)).
Proof.
  intros Hbook. induction items as [|[member chains] items IH]; intros acc.
  - simpl. now rewrite app_nil_r.
  - cbn [for_ancestries_by_user].
    rewrite (for_project_ancestries_run _ _ _ _ Hbook).
    cbn [existsb fst snd flat_map].
    destruct (has_empty_chain chains) eqn:Hc; cbn [orb andb].
    + destruct (book_has_rule book) eqn:Hb; [reflexivity|].
      rewrite IH, andb_false_r. now rewrite app_assoc.
    + rewrite IH.
      destruct (existsb _ items && book_has_rule book); [reflexivity|].
      now rewrite app_assoc.
Qed.

Lemma find_violations_run (self : ExternalProjectAccessScanner)
    (book : ExternalProjectAccessRuleBook)
    (m : gmap string (list (list AncestryResource))) :
  rule_book (rules_engine self) = Some book ->
  _find_violations self m
  = (self,
     if existsb (fun item => has_empty_chain (snd item)) (map_to_list m)
        && book_has_rule book
     then Raise IndexError
     else Ok (flat_map (fun item => flat_map (violations_for book (fst item))
                                      (snd item))
                (map_to_list m))).
Proof.
  intros Hbook. unfold _find_violations.
  rewrite (for_ancestries_by_user_run _ _ _ Hbook). cbn [app].
  destruct self. reflexivity.
Qed.

Lemma has_empty_chain_In (chains : list (list AncestryResource)) :
  has_empty_chain chains = true <-> In [] chains.
Proof.
  unfold has_empty_chain. rewrite existsb_exists. split.
  - intros ([|x c] & Hin & H); [exact Hin | discriminate].
  - intros H. exists []. split; [exact H | reflexivity].
Qed.

Lemma some_empty_chain (m : gmap string (list (list AncestryResource))) :
  existsb (fun item => has_empty_chain (snd item)) (map_to_list m) = true <->
  exists member chains, m !! member = Some chains /\ In [] chains.
Proof.
  rewrite existsb_exists. split.
  - intros ([member chains] & Hin & H). exists member, chains.
    apply list_elem_of_In, elem_of_map_to_list in Hin.
    split; [exact Hin | now apply has_empty_chain_In].
  - intros (member & chains & Hm & Hin). exists (member, chains). split.
    + now apply list_elem_of_In, elem_of_map_to_list.
    + now apply has_empty_chain_In.
Qed.

Lemma In_violations_for (book : ExternalProjectAccessRuleBook)
    (member : string) (chain : list AncestryResource) (v : RuleViolation.t) :
  In v (violations_for book member chain) <->
  exists leaf rest rule,
    chain = leaf :: rest /\ In rule (rules_violated book chain) /\
    v = violation_of rule member leaf chain.
Proof.
  destruct chain as [|leaf rest]; cbn [violations_for].
  - split; [intros [] | intros (? & ? & ? & H & _); discriminate].
  - rewrite in_map_iff. split.
    + intros (rule & <- & Hrule). exists leaf, rest, rule. tauto.
    + intros (leaf' & rest' & rule & [= <- <-] & Hrule & ->).
      exists rule. tauto.
Qed.

Lemma flat_map_agree {A B : Type} (f g : A -> list B) (l : list A) :
  (forall a, In a l -> f a = g a) -> flat_map f l = flat_map g l.
Proof.
  induction l as [|a l IH]; intros H; [reflexivity|].
  simpl. rewrite (H a) by now left. f_equal. apply IH.
  intros b Hb. apply H. now right.
Qed.

(** X6.  With a rule book in place and no empty chain in the map,
    [_find_violations] returns normally and leaves the scanner as it was.
    The list returned is the concatenation, over the identities of the map
    in the order in which the map is enumerated, then over the chains of
    each identity in their order, of the violations of that chain: one for
    every rule whose ancestor is not in the chain, in the order of the rule
    book, attributed to that identity and to the leaf of that chain.  So a
    violation is in the list exactly when it is the violation of some
    identity, some chain of that identity and some rule whose ancestor is
    not in that chain, and it stands there once for every such triple. *)
Theorem find_violations_sound_and_complete
    (self : ExternalProjectAccessScanner)
    (book : ExternalProjectAccessRuleBook)
    (ancestries_by_user : gmap string (list (list AncestryResource))) :
  rule_book (rules_engine self) = Some book ->
  (forall member chains,
     ancestries_by_user !! member = Some chains -> ~ In [] chains) ->
  exists vs,
    _find_violations self ancestries_by_user = (self, Ok vs) /\
    vs = flat_map (fun item =>
                     flat_map (fun chain =>
                                 map (fun rule =>
                                        violation_of rule (fst item)
                                          (hd (create_resource "" PROJECT)
                                             chain) chain)
                                   (rules_violated book chain))
                       (snd item))
           (map_to_list ancestries_by_user) /\
    forall v,
      In v vs <->
      exists member chains leaf rest rule,
        ancestries_by_user !! member = Some chains /\
        In (leaf :: rest) chains /\
        In rule (rules_violated book (leaf :: rest)) /\
        v = violation_of rule member leaf (leaf :: rest).
Proof.
  intros Hbook Hnonempty. rewrite (find_violations_run _ _ _ Hbook).
  assert (existsb (fun item => has_empty_chain (snd item))
            (map_to_list ancestries_by_user) = false) as ->.
  { apply not_true_iff_false. intros H. apply some_empty_chain in H.
    destruct H as (member & chains & Hm & Hin). now apply (Hnonempty _ _ Hm). }
  cbn [andb]. eexists. split; [reflexivity|]. split.
  { apply flat_map_agree. intros [member chains] Hitem. cbn [fst snd].
    apply flat_map_agree. intros [|leaf rest] Hchain; [|reflexivity].
    apply list_elem_of_In, elem_of_map_to_list in Hitem.
    now destruct (Hnonempty _ _ Hitem). }
  intros v. rewrite in_flat_map. split.
  - intros ([member chains] & Hitem & Hv). cbn [fst snd] in Hv.
    apply in_flat_map in Hv as (chain & Hchain & Hv).
    apply In_violations_for in Hv as (leaf & rest & rule & -> & Hrule & ->).
    exists member, chains, leaf, rest, rule.
    apply list_elem_of_In, elem_of_map_to_list in Hitem. tauto.
  - intros (member & chains & leaf & rest & rule & Hm & Hchain & Hrule & ->).
    exists (member, chains). split.
    + now apply list_elem_of_In, elem_of_map_to_list.
    + cbn [fst snd]. apply in_flat_map. exists (leaf :: rest).
      split; [exact Hchain|]. apply In_violations_for.
      exists leaf, rest, rule. tauto.
Qed.

(** X7.  With a rule book in place, [_find_violations] fails exactly when
    the book has a rule and some identity of the map has an empty chain;
    it then raises [IndexError], and it raises nothing else.  In every
    case the scanner is left as it was. *)
Theorem find_violations_raises_iff_empty_chain
    (self : ExternalProjectAccessScanner)
    (book : ExternalProjectAccessRuleBook)
    (ancestries_by_user : gmap string (list (list AncestryResource))) :
  rule_book (rules_engine self) = Some book ->
  fst (_find_violations self ancestries_by_user) = self /\
  (snd (_find_violations self ancestries_by_user) = Raise IndexError <->
   resource_rules_map book <> [] /\
   exists member chains,
     ancestries_by_user !! member = Some chains /\ In [] chains) /\
  (forall e, snd (_find_violations self ancestries_by_user) = Raise e ->
             e = IndexError).
Proof.
  intros Hbook. rewrite (find_violations_run _ _ _ Hbook). cbn [fst snd].
  split; [reflexivity|].
  assert (book_has_rule book = true <-> resource_rules_map book <> [])
    as Hrule.
  { unfold book_has_rule. destruct (resource_rules_map book);
      split; congruence. }
  rewrite <- some_empty_chain, <- Hrule.
  destruct (existsb _ (map_to_list ancestries_by_user));
    destruct (book_has_rule book); cbn [andb]; split;
    try (split; [try discriminate; tauto
                | intros [? ?]; try discriminate; reflexivity]);
    try (intros e [= <-]; reflexivity); try discriminate.
Qed.

(** One identity with the chain of the deny case. *)
Lemma find_violations_sound_and_complete_witness :
  exists vs,
    _find_violations (mkScanner example_engine ∅)
      {[ "user2@example.com" := [denied_chain] ]}
    = (mkScanner example_engine ∅, Ok vs) /\
    In (violation_of {| rule_name := Some "default"; rule_index := 0;
                        rules := create_resource "567890" ORGANIZATION |}
          "user2@example.com" (create_resource "13579" PROJECT) denied_chain)
      vs.
Proof.
  destruct (find_violations_sound_and_complete (mkScanner example_engine ∅)
              example_book {[ "user2@example.com" := [denied_chain] ]}
              eq_refl) as (vs & Hrun & _ & Hvs).
  - intros member chains Hm Hin.
    apply lookup_singleton_Some in Hm as [_ <-].
    destruct Hin as [H | []]. discriminate H.
  - exists vs. split; [exact Hrun|]. apply Hvs.
    exists "user2@example.com", [denied_chain],
      (create_resource "13579" PROJECT),
      [create_resource "24680" FOLDER;
       create_resource "1357924680" ORGANIZATION],
      {| rule_name := Some "default"; rule_index := 0;
         rules := create_resource "567890" ORGANIZATION |}.
    split; [apply lookup_singleton_eq|]. split; [now left|].
    split; [now left | reflexivity].
Defined.

(** One identity with an empty chain, against the one-rule book. *)
Lemma find_violations_raises_iff_empty_chain_witness :
  snd (_find_violations (mkScanner example_engine ∅)
         {[ "user1@example.com" := [[]] ]})
  = Raise IndexError.
Proof.
  apply (find_violations_raises_iff_empty_chain (mkScanner example_engine ∅)
           example_book {[ "user1@example.com" := [[]] ]} eq_refl).
  split; [discriminate|]. exists "user1@example.com", [[]].
  split; [apply lookup_singleton_eq | now left].
Defined.

(** ** A failed fetch and the evaluation that follows *)

Lemma append_resources_engine (answer : list AncestorDescriptor) :
  forall (w : World) (project_id : string),
    rules_engine (scanner (append_resources w project_id answer))
    = rules_engine (scanner w).
Proof.
  induction answer as [|d answer IH]; intros w project_id; [reflexivity|].
  cbn [append_resources]. now rewrite IH.
Qed.

(** Resolving a project never touches the rules engine. *)
Lemma ensure_ancestry_engine (crm : CloudResourceManager) (user_email : string)
    (w w' : World) (project_id : string) (r : result unit) :
  ensure_ancestry crm user_email w project_id = (w', r) ->
  rules_engine (scanner w') = rules_engine (scanner w).
Proof.
  unfold ensure_ancestry. destruct (cache w !! project_id).
  - intros [= <- _]. reflexivity.
  - destruct (get_project_ancestry _ _ _ _) as [answer failure].
    destruct failure; intros [= <- _]; now rewrite append_resources_engine.
Qed.

(** X8.  Let two inventory rows resolve the one project [P], and let the
    first fetch of the ancestry of [P] raise the refresh error before
    yielding anything.  Retrieval absorbs the error and goes on: the first
    identity is left out, the second one is given the empty chain that the
    failed fetch left in the cache, and [P] is requested once.  Evaluating
    that result against a rule book of at least one rule then raises
    [IndexError]: the scan ends there, although retrieval succeeded. *)
Theorem failed_fetch_aborts_evaluation (crm : CloudResourceManager)
    (engine : ExternalProjectAccessRulesEngine)
    (book : ExternalProjectAccessRuleBook) (first second P : string) :
  project_ids_of crm first = Ok [P] ->
  project_ids_of crm second = Ok [P] ->
  get_project_ancestry crm [] first P = ([], Some RefreshError) ->
  rule_book engine = Some book ->
  resource_rules_map book <> [] ->
  exists w,
    _retrieve crm (mkWorld (mkScanner engine ∅) [])
      (inventory_of [first; second])
    = (w, Ok {[ second := [[]] ]}) /\
    remote_lookups w = [P] /\
    _ancestries (scanner w) !! P = Some [] /\
    _find_violations (scanner w) {[ second := [[]] ]}
    = (scanner w, Raise IndexError).
Proof.
  intros Hfirst Hsecond Hfetch Hbook Hrule.
  set (w0 := mkWorld (mkScanner engine ∅) []).
  destruct (ensure_ancestry_miss crm first w0 P (lookup_empty P))
    as (w & Hens & Hcache & Hlog).
  cbn [w0 remote_lookups] in Hens, Hcache, Hlog.
  rewrite Hfetch in Hens, Hcache. cbn [fst snd map] in Hens, Hcache.
  assert (cache w !! P = Some []) as HP.
  { rewrite Hcache. apply lookup_insert_eq. }
  assert (rules_engine (scanner w) = engine) as Hengine.
  { apply (ensure_ancestry_engine _ _ _ _ _ _ Hens). }
  exists w. split; [|split; [exact Hlog | split; [exact HP|]]].
  - unfold _retrieve. cbn [inventory_of map retrieve_rows row_email].
    unfold _project_ancestries_by_user at 1. rewrite Hfirst.
    cbn [for_project_ids]. fold w0. rewrite Hens.
    unfold _project_ancestries_by_user. rewrite Hsecond.
    cbn [for_project_ids]. rewrite (ensure_ancestry_hit _ _ _ _ _ HP), HP.
    reflexivity.
  - rewrite (find_violations_run _ book) by (now rewrite Hengine).
    rewrite map_to_list_singleton. cbn [existsb snd has_empty_chain orb].
    unfold book_has_rule. destruct (resource_rules_map book); [congruence|].
    reflexivity.
Qed.

(** The first request fails; the second identity meets the empty chain. *)
Lemma failed_fetch_aborts_evaluation_witness :
  exists w,
    _retrieve flaky_crm example_world
      (inventory_of ["user1@example.com"; "user2@example.com"])
    = (w, Ok {[ "user2@example.com" := [[]] ]}) /\
    _find_violations (scanner w) {[ "user2@example.com" := [[]] ]}
    = (scanner w, Raise IndexError).
Proof.
  destruct (failed_fetch_aborts_evaluation flaky_crm example_engine
              example_book "user1@example.com" "user2@example.com"
              "shared_project" eq_refl eq_refl eq_refl eq_refl)
    as (w & Hrun & _ & _ & Hfind); [discriminate|].
  exists w. split; [exact Hrun | exact Hfind].
Defined.

(** ** More on retrieval *)

Lemma retrieve_rows_outcome (crm : CloudResourceManager)
    (rows : list InventoryRow) :
  forall (w w' : World) (m : gmap string (list (list AncestryResource)))
         (r : result (gmap string (list (list AncestryResource)))),
    retrieve_rows crm w rows m = (w', r) ->
    match r with
    | Raise e =>
        e <> RefreshError /\
        (e = KeyError -> exists row, In row rows /\ row_email row = None)
    | Ok m' =>
        (forall row, In row rows -> row_email row <> None) /\
        forall user_email,
          is_Some (m' !! user_email) ->
          is_Some (m !! user_email) \/
          In (mkInventoryRow (Some user_email)) rows
    end.
Proof.
  induction rows as [|[[u|]] rest IH]; intros w w' m r.
  - simpl. intros [= <- <-]. split; [intros row [] | tauto].
  - cbn [retrieve_rows row_email].
    assert (forall w1 m1,
              (forall user_email,
                 is_Some (m1 !! user_email) ->
                 is_Some (m !! user_email) \/ user_email = u) ->
              retrieve_rows crm w1 rest m1 = (w', r) ->
              match r with
              | Raise e =>
                  e <> RefreshError /\
                  (e = KeyError ->
                   exists row, In row (mkInventoryRow (Some u) :: rest) /\
                               row_email row = None)
              | Ok m' =>
                  (forall row, In row (mkInventoryRow (Some u) :: rest) ->
                               row_email row <> None) /\
                  forall user_email,
                    is_Some (m' !! user_email) ->
                    is_Some (m !! user_email) \/
                    In (mkInventoryRow (Some user_email))
                      (mkInventoryRow (Some u) :: rest)
              end) as Hnext.
    { intros w1 m1 Hm1 Hrest. specialize (IH _ _ _ _ Hrest).
      destruct r as [m'|e].
      - destruct IH as [Hrows Hkeys]. split.
        + intros row [<- | Hrow]; [discriminate | now apply Hrows].
        + intros user_email Hu. destruct (Hkeys user_email Hu) as [H | H].
          * destruct (Hm1 user_email H) as [H' | ->];
              [now left | right; now left].
          * right. now right.
      - destruct IH as [Hne Hkey]. split; [exact Hne|].
        intros He. destruct (Hkey He) as (row & Hrow & Hnone).
        exists row. split; [now right | exact Hnone]. }
    destruct (_project_ancestries_by_user crm w u) as [w1 [chains|e]].
    + apply Hnext. intros user_email Hu.
      apply lookup_insert_is_Some in Hu as [<- | [_ Hu]];
        [now right | now left].
    + destruct e; try (apply Hnext; intros user_email Hu; now left);
        intros [= <- <-]; split; discriminate.
  - cbn [retrieve_rows row_email]. intros [= <- <-].
    split; [discriminate|]. intros _. exists (mkInventoryRow None).
    split; [now left | reflexivity].
Qed.

(** X9.  An inventory row is read with [get_resource_data()['email']]
    outside the [try] of [_retrieve], and resolved inside it.  So
    [_retrieve] never raises the refresh error, whatever the resource
    manager does, and it raises [KeyError] only when some row has no
    e-mail: a [KeyError] raised while a row is resolved is absorbed, the
    one raised by reading a row without e-mail is not.  When [_retrieve]
    returns, every row has an e-mail and every identity of the result map
    is the e-mail of a row.  A first row without e-mail makes it raise
    [KeyError] at once, with nothing requested and nothing cached. *)
Theorem retrieve_absorbs_recoverable_errors (crm : CloudResourceManager)
    (w : World) (rows : list InventoryRow) :
  (forall e, snd (_retrieve crm w rows) = Raise e -> e <> RefreshError) /\
  (snd (_retrieve crm w rows) = Raise KeyError ->
   exists row, In row rows /\ row_email row = None) /\
  (forall m,
     snd (_retrieve crm w rows) = Ok m ->
     (forall row, In row rows -> row_email row <> None) /\
     forall user_email,
       is_Some (m !! user_email) ->
       In (mkInventoryRow (Some user_email)) rows) /\
  _retrieve crm w (mkInventoryRow None :: rows) = (w, Raise KeyError).
Proof.
  unfold _retrieve.
  destruct (retrieve_rows crm w rows ∅) as [w' r] eqn:Hrun.
  pose proof (retrieve_rows_outcome _ _ _ _ _ _ Hrun) as Hout.
  cbn [snd]. split; [|split; [|split]].
  - intros e ->. exact (proj1 Hout).
  - intros ->. now apply (proj2 Hout).
  - intros m ->. destruct Hout as [Hrows Hkeys]. split; [exact Hrows|].
    intros user_email Hu. destruct (Hkeys user_email Hu) as [H | H];
      [|exact H].
    rewrite lookup_empty in H. now destruct H.
  - reflexivity.
Qed.

(** Two rows that cannot be resolved are left out; a row without e-mail
    after them raises [KeyError]. *)
Lemma retrieve_absorbs_recoverable_errors_witness :
  snd (_retrieve example_crm example_world
         (inventory_of ["expired@example.com"; "nobody@example.com"]))
  = Ok ∅ /\
  snd (_retrieve example_crm example_world
         (inventory_of ["expired@example.com"; "nobody@example.com"]
          ++ [mkInventoryRow None]))
  = Raise KeyError /\
  exists row,
    In row (inventory_of ["expired@example.com"; "nobody@example.com"]
            ++ [mkInventoryRow None]) /\
    row_email row = None.
Proof.
  split; [reflexivity|]. split; [reflexivity|].
  apply (proj1 (proj2 (retrieve_absorbs_recoverable_errors example_crm
                         example_world
                         (inventory_of ["expired@example.com";
                                        "nobody@example.com"]
                          ++ [mkInventoryRow None])))).
  reflexivity.
Defined.

Lemma for_project_ids_cached (crm : CloudResourceManager) (user_email : string)
    (w : World) (project_ids : list string)
    (chains : list (list AncestryResource)) :
  Forall2 (fun p c => cache w !! p = Some c) project_ids chains ->
  forall ancestries,
    for_project_ids crm user_email w project_ids ancestries
    = (w, Ok (ancestries ++ chains)).
Proof.
  induction 1 as [|p c ids cs Hp _ IH]; intros ancestries.
  - simpl. now rewrite app_nil_r.
  - cbn [for_project_ids]. rewrite (ensure_ancestry_hit _ _ _ _ _ Hp), Hp, IH.
    now rewrite <- app_assoc.
Qed.

(** X10.  When the cache already holds a chain for every project of an
    identity, resolving that identity changes nothing: no request is sent,
    the cache stays as it is, and the chains returned are those of the
    cache, one for each listed project, in the order of the listing. *)
Theorem resolution_of_cached_projects_is_silent (crm : CloudResourceManager)
    (w : World) (user_email : string) (project_ids : list string)
    (chains : list (list AncestryResource)) :
  project_ids_of crm user_email = Ok project_ids ->
  Forall2 (fun p c => cache w !! p = Some c) project_ids chains ->
  _project_ancestries_by_user crm w user_email = (w, Ok chains).
Proof.
  intros Hids Hall. unfold _project_ancestries_by_user. rewrite Hids.
  now rewrite (for_project_ids_cached _ _ _ _ _ Hall).
Qed.

(** After the failed fetch, the second identity is served by the cache. *)
Lemma resolution_of_cached_projects_is_silent_witness :
  let w := fst (_project_ancestries_by_user flaky_crm example_world
                  "user1@example.com") in
  _project_ancestries_by_user flaky_crm w "user2@example.com" = (w, Ok [[]]).
Proof.
  intros w.
  apply (resolution_of_cached_projects_is_silent flaky_crm w
           "user2@example.com" ["shared_project"] [[]] eq_refl).
  constructor; [reflexivity | constructor].
Defined.

(** ** The scanner as built by its constructor *)

(** X11.  The constructor of the scanner succeeds exactly when the rule
    book can be built from the rules file, and raises the error of the
    rule book otherwise.  The scanner it returns has that rule book and
    an empty cache; evaluating any retrieval result with it leaves it
    unchanged and can only raise [IndexError]: the rebuild inside
    [find_policy_violations], which would raise [TypeError], is never
    reached. *)
Theorem scanner_init_builds_rule_book (inventory_configs : GlobalConfigs)
    (file : option RuleDefs) :
  (forall self,
     Scanner_init inventory_configs file = Ok self <->
     exists book,
       RuleBook_init (Some inventory_configs) file = Ok book /\
       self = mkScanner (mkEngine file (Some book)) ∅) /\
  (forall e,
     Scanner_init inventory_configs file = Raise e <->
     RuleBook_init (Some inventory_configs) file = Raise e) /\
  (forall self ancestries_by_user,
     Scanner_init inventory_configs file = Ok self ->
     fst (_find_violations self ancestries_by_user) = self /\
     forall e, snd (_find_violations self ancestries_by_user) = Raise e ->
               e = IndexError).
Proof.
  assert (Scanner_init inventory_configs file
          = match RuleBook_init (Some inventory_configs) file with
            | Ok book => Ok (mkScanner (mkEngine file (Some book)) ∅)
            | Raise e => Raise e
            end) as Hinit.
  { unfold Scanner_init, build_rule_book, Engine_init. cbn [rules_file].
    now destruct (RuleBook_init (Some inventory_configs) file). }
  rewrite Hinit.
  destruct (RuleBook_init (Some inventory_configs) file) as [book|e0].
  - split; [|split].
    + intros self. split.
      * intros [= <-]. eauto.
      * intros (book' & [= <-] & ->). reflexivity.
    + intros e. split; discriminate.
    + intros self m [= <-].
      rewrite (find_violations_run _ book) by reflexivity. cbn [fst snd].
      split; [reflexivity|]. intros e.
      destruct (_ && _); [intros [= <-]; reflexivity | discriminate].
  - split; [|split].
    + intros self. split; [discriminate|].
      intros (book & H & _). discriminate H.
    + intros e. split; intros [= <-]; reflexivity.
    + intros self m H. discriminate H.
Qed.

(** The scanner of the allow and deny cases. *)
Lemma scanner_init_builds_rule_book_witness :
  Scanner_init [] example_rules = Ok (mkScanner example_engine ∅) /\
  fst (_find_violations (mkScanner example_engine ∅)
         {[ "user1@example.com" := [[]] ]})
  = mkScanner example_engine ∅.
Proof.
  split; [reflexivity|].
  apply (proj2 (proj2 (scanner_init_builds_rule_book [] example_rules))
           (mkScanner example_engine ∅)). reflexivity.
Defined.

(** ** Flattening *)

(** X12.  Consuming [_flatten_violations] succeeds exactly when the
    rule-ancestor field of every violation is a resource object; the
    records then come one for each violation, in order, with the fields of
    the violation and the name of that resource.  When a field is anything
    else, the error raised is [AttributeError]. *)
Theorem flatten_violations_needs_resource_objects
    (violations : list RuleViolation.t) :
  ((exists records, consume (_flatten_violations violations) = Ok records) <->
   (forall v, In v violations ->
      exists ancestor, RuleViolation.rule_ancestor v = PyResource ancestor)) /\
  (forall records,
     consume (_flatten_violations violations) = Ok records ->
     Forall2 (fun v record =>
                exists ancestor,
                  RuleViolation.rule_ancestor v = PyResource ancestor /\
                  flattened v ancestor record)
       violations records) /\
  (forall e, consume (_flatten_violations violations) = Raise e ->
             e = AttributeError).
Proof.
  induction violations as [|v vs (IHiff & IHok & IHerr)].
  - split; [|split].
    + split; [intros _ v [] | intros _; exists []; reflexivity].
    + intros records [= <-]. constructor.
    + discriminate.
  - cbn [_flatten_violations map consume]. unfold flatten_violation at 1 3 5.
    destruct (RuleViolation.rule_ancestor v) as [s | ancestor] eqn:Hv;
      cbn [getattr_name mbind result_bind].
    + split; [|split].
      * split; [intros (records & H); discriminate H|].
        intros H. destruct (H v (or_introl eq_refl)) as (a & Ha).
        congruence.
      * discriminate.
      * intros e [= <-]. reflexivity.
    + fold (_flatten_violations vs).
      destruct (consume (_flatten_violations vs)) as [records|e] eqn:Hrest;
        cbn [mbind result_bind].
      * split; [|split].
        -- split; [|eauto]. intros _ v' [<- | Hin]; [eauto|].
           apply IHiff; eauto.
        -- intros records' [= <-]. constructor; [|now apply IHok].
           exists ancestor. split; [exact Hv|]. repeat split.
        -- discriminate.
      * split; [|split].
        -- split; [intros (records & H); discriminate H|].
           intros H. apply IHiff. intros v' Hin. apply H. now right.
        -- discriminate.
        -- intros e' [= <-]. now apply IHerr.
Qed.

(** A violation whose rule-ancestor field is the resource itself. *)
Lemma flatten_violations_needs_resource_objects_witness :
  exists records,
    consume (_flatten_violations
               [{| RuleViolation.resource_type := PROJECT;
                   RuleViolation.resource_id := "13579";
                   RuleViolation.rule_name := Some "default";
                   RuleViolation.rule_index := 0;
                   RuleViolation.rule_ancestor :=
                     PyResource (create_resource "567890" ORGANIZATION);
                   RuleViolation.full_name := "project/13579";
                   RuleViolation.violation_type :=
                     "EXTERNAL_PROJECT_ACCESS_VIOLATION";
                   RuleViolation.member := "user2@example.com";
                   RuleViolation.resource_data := "project/13579" |}])
    = Ok records.
Proof.
  apply (proj1 (flatten_violations_needs_resource_objects _)).
  intros v [<- | []]. eexists. reflexivity.
Defined.

(** ** The schedule of a scanner *)

Lemma config_matches_named (requirements_map : list (string * string))
    (self : BaseScanner) (name : string) (entries : list ScannerEntry) :
  scanner_name requirements_map self = Ok name ->
  (forall entry, In entry entries -> is_Some (entry_name entry)) ->
  config_matches requirements_map self entries
  = Ok (List.filter (entry_named name) entries).
Proof.
  intros Hname. induction entries as [|entry entries IH]; intros Hall;
    [reflexivity|].
  cbn [config_matches List.filter]. unfold entry_named at 1.
  destruct (Hall entry (or_introl eq_refl)) as [n Hn]. rewrite Hn, Hname.
  cbn [dict_get mbind result_bind].
  rewrite IH by (intros e He; apply Hall; now right).
  cbn [mbind result_bind]. reflexivity.
Qed.

Lemma filter_first_match (name : string)
    (before after : list ScannerEntry) (entry : ScannerEntry) :
  (forall e, In e before -> entry_named name e = false) ->
  entry_named name entry = true ->
  List.filter (entry_named name) (before ++ entry :: after)
  = entry :: List.filter (entry_named name) after.
Proof.
  intros Hbefore Hentry. induction before as [|b before IH]; cbn [app List.filter].
  - now rewrite Hentry.
  - rewrite (Hbefore b (or_introl eq_refl)).
    apply IH. intros e He. apply Hbefore. now right.
Qed.

(** X13.  When every entry of the configuration is named and the class of
    the scanner is registered, [run_today] is decided by the first entry
    that carries the name of the scanner, later entries of the same name
    being ignored: it returns whether today is among the weekdays of that
    entry, and, when the entry has no weekdays, whether today is one of
    the seven days of the week. *)
Theorem run_today_follows_first_entry
    (requirements_map : list (string * string)) (self : BaseScanner)
    (name : string) (before after : list ScannerEntry)
    (entry : ScannerEntry) (today : string) :
  scanner_name requirements_map self = Ok name ->
  scanners (scanner_configs self) = Some (before ++ entry :: after) ->
  (forall e, In e (before ++ entry :: after) -> is_Some (entry_name e)) ->
  (forall e, In e before -> entry_name e <> Some name) ->
  entry_name entry = Some name ->
  config requirements_map self = Ok (Some entry) /\
  run_today requirements_map self today
  = Ok (existsb (String.eqb today)
          (match entry_weekdays entry with
           | Some days => days
           | None => day_name
           end)).
Proof.
  intros Hname Hscanners Hnamed Hbefore Hentry.
  assert (config requirements_map self = Ok (Some entry)) as Hconfig.
  { unfold config. rewrite Hscanners. cbn [dict_get mbind result_bind].
    rewrite (config_matches_named _ _ name) by assumption.
    cbn [mbind result_bind]. rewrite filter_first_match; [reflexivity | |].
    - intros e He. unfold entry_named.
      destruct (entry_name e) as [n|] eqn:Hn; [|reflexivity].
      apply String.eqb_neq. intros ->. now apply (Hbefore e He).
    - unfold entry_named. rewrite Hentry. apply String.eqb_refl. }
  split; [exact Hconfig|]. unfold run_today, weekdays. rewrite Hconfig.
  cbn [mbind result_bind].
  destruct (entry_weekdays entry); reflexivity.
Qed.

(** The scanner runs on Thursday, as the first of its two entries says,
    and not on Sunday, which only the second entry names. *)
Lemma run_today_follows_first_entry_witness :
  run_today example_requirements_map example_base_scanner "Thursday"
  = Ok true /\
  run_today example_requirements_map example_base_scanner "Sunday"
  = Ok false.
Proof.
  split.
  - apply (run_today_follows_first_entry example_requirements_map
             example_base_scanner "external_project_access"
             [mkScannerEntry (Some "iam_policy") None]
             [mkScannerEntry (Some "external_project_access")
                (Some ["Sunday"])]
             (mkScannerEntry (Some "external_project_access")
                (Some ["Monday"; "Thursday"])) "Thursday").
    + reflexivity.
    + reflexivity.
    + intros e [<- | [<- | [<- | []]]]; simpl; eauto.
    + intros e [<- | []]. discriminate.
    + reflexivity.
  - apply (run_today_follows_first_entry example_requirements_map
             example_base_scanner "external_project_access"
             [mkScannerEntry (Some "iam_policy") None]
             [mkScannerEntry (Some "external_project_access")
                (Some ["Sunday"])]
             (mkScannerEntry (Some "external_project_access")
                (Some ["Monday"; "Thursday"])) "Sunday").
    + reflexivity.
    + reflexivity.
    + intros e [<- | [<- | [<- | []]]]; simpl; eauto.
    + intros e [<- | []]. discriminate.
    + reflexivity.
Defined.

(** X14.  Without a usable configuration [run_today] behaves in three
    ways.  When [scanner_configs] has no ['scanners'] key, the [KeyError]
    is absorbed and the scanner runs on each of the seven days.  When the
    key is there, every entry is named and none carries the name of the
    scanner, [config] is [None] and [run_today] raises [TypeError]; an
    empty list of entries does so too, whatever the registry holds.  When
    the first entry is named and the class of the scanner is not
    registered, [run_today] raises [IndexError]. *)
Theorem run_today_without_configuration
    (requirements_map : list (string * string)) (self : BaseScanner)
    (today : string) :
  (scanners (scanner_configs self) = None ->
   run_today requirements_map self today
   = Ok (existsb (String.eqb today) day_name)) /\
  (forall name entries,
     scanners (scanner_configs self) = Some entries ->
     scanner_name requirements_map self = Ok name ->
     (forall e, In e entries ->
        is_Some (entry_name e) /\ entry_name e <> Some name) ->
     run_today requirements_map self today = Raise TypeError) /\
  (scanners (scanner_configs self) = Some [] ->
   run_today requirements_map self today = Raise TypeError) /\
  (forall first_name first_days rest,
     scanners (scanner_configs self)
     = Some (mkScannerEntry (Some first_name) first_days :: rest) ->
     (forall kv, In kv requirements_map -> snd kv <> class_name self) ->
     run_today requirements_map self today = Raise IndexError).
Proof.
  split; [|split; [|split]].
  - intros Hnone. unfold run_today, weekdays, config. rewrite Hnone.
    reflexivity.
  - intros name entries Hscanners Hname Hall.
    unfold run_today, weekdays, config. rewrite Hscanners.
    cbn [dict_get mbind result_bind].
    rewrite (config_matches_named _ _ name) by
      (try assumption; intros e He; now apply Hall).
    cbn [mbind result_bind].
    assert (List.filter (entry_named name) entries = []) as ->;
      [|reflexivity].
    clear Hscanners. induction entries as [|e entries IH]; [reflexivity|].
    cbn [List.filter]. unfold entry_named at 1.
    destruct (Hall e (or_introl eq_refl)) as [[n Hn] Hne]. rewrite Hn.
    assert (String.eqb n name = false) as ->.
    { apply String.eqb_neq. intros ->. now apply Hne. }
    apply IH. intros e' He'. apply Hall. now right.
  - intros Hscanners. unfold run_today, weekdays, config. rewrite Hscanners.
    reflexivity.
  - intros first_name first_days rest Hscanners Hunregistered.
    unfold run_today, weekdays, config. rewrite Hscanners.
    cbn [dict_get mbind result_bind config_matches entry_name].
    assert (scanner_name requirements_map self = Raise IndexError) as ->;
      [|reflexivity].
    unfold scanner_name.
    assert (List.filter (fun kv => String.eqb (snd kv) (class_name self))
              requirements_map = []) as ->; [|reflexivity].
    clear Hscanners. induction requirements_map as [|kv rm IH]; [reflexivity|].
    cbn [List.filter].
    assert (String.eqb (snd kv) (class_name self) = false) as ->.
    { apply String.eqb_neq. apply Hunregistered. now left. }
    apply IH. intros kv' Hkv'. apply Hunregistered. now right.
Qed.

(** A scanner that the configuration does not list. *)
Lemma run_today_without_configuration_witness :
  run_today example_requirements_map
    {| class_name := "ExternalProjectAccessScanner";
       scanner_configs :=
         {| scanners := Some [mkScannerEntry (Some "iam_policy") None] |} |}
    "Monday"
  = Raise TypeError.
Proof.
  apply (proj1 (proj2 (run_today_without_configuration
                         example_requirements_map _ "Monday"))
           "external_project_access"
           [mkScannerEntry (Some "iam_policy") None]).
  - reflexivity.
  - reflexivity.
  - intros e [<- | []]. split; [simpl; eauto | discriminate].
Defined.

(** ** A fetch that succeeds *)

(** X15.  Let identity [user_email] resolve the projects
    [ids_before ++ P :: ids_after]; let the projects before [P] resolve
    without raising, let the cache then hold nothing for [P], and let the
    remote fetch for [P] yield [answer] and end normally.  Then, however
    the call ends, [P] has been requested and the cache holds for [P] the
    resources made of the elements of [answer], in the order of the
    answer; and when the call returns, the chain it returns at the
    position of [P] is that one. *)
Theorem successful_fetch_caches_whole_chain (crm : CloudResourceManager)
    (w w1 w' : World) (user_email : string)
    (ids_before ids_after : list string) (P : string)
    (ancestries : list (list AncestryResource))
    (answer : list AncestorDescriptor)
    (r : result (list (list AncestryResource))) :
  project_ids_of crm user_email = Ok (ids_before ++ P :: ids_after) ->
  for_project_ids crm user_email w ids_before [] = (w1, Ok ancestries) ->
  cache w1 !! P = None ->
  get_project_ancestry crm (remote_lookups w1) user_email P
  = (answer, None) ->
  _project_ancestries_by_user crm w user_email = (w', r) ->
  cache w' !! P = Some (map resource_of answer) /\
  In P (remote_lookups w') /\
  forall chains,
    r = Ok chains ->
    chains !! length ids_before = Some (map resource_of answer).
Proof.
  intros Hids Hbefore Hmiss Hfetch Hrun.
  destruct (ensure_ancestry_miss crm user_email _ _ Hmiss)
    as (w2 & Hens & Hcache & Hlog).
  rewrite Hfetch in Hens, Hcache. cbn [fst snd] in Hens, Hcache.
  assert (cache w2 !! P = Some (map resource_of answer)) as HP.
  { rewrite Hcache. apply lookup_insert_eq. }
  unfold _project_ancestries_by_user in Hrun.
  rewrite Hids, for_project_ids_app, Hbefore in Hrun.
  cbn [for_project_ids] in Hrun. rewrite Hens, HP in Hrun.
  destruct (for_project_ids_spec _ _ _ _ _ _ _ Hrun) as [Hg Hchains].
  destruct (for_project_ids_spec _ _ _ _ _ _ _ Hbefore) as [_ Hacc].
  destruct (Hacc ancestries eq_refl) as (new0 & Hnew0 & Hall0).
  cbn [app] in Hnew0. subst new0.
  split; [now apply (grows_lookup w2)|]. split.
  - destruct Hg as (l & Hl & _). rewrite Hl, Hlog.
    apply in_or_app. left. apply in_or_app. right. now left.
  - intros chains Hr. destruct (Hchains chains Hr) as (new & -> & _).
    rewrite (Forall2_length _ _ _ Hall0), <- app_assoc.
    rewrite lookup_app_r by lia. now rewrite Nat.sub_diag.
Qed.

(** The first project of the example resolves in full. *)
Lemma successful_fetch_caches_whole_chain_witness :
  _ancestries (scanner (fst (_project_ancestries_by_user example_crm
                               example_world "user1@example.com")))
    !! "test_project_1"
  = Some [create_resource "test_project_1" PROJECT;
          create_resource "1234567" ORGANIZATION].
Proof.
  apply (successful_fetch_caches_whole_chain example_crm example_world
           example_world _ "user1@example.com" [] ["test_project_2"]
           "test_project_1" []
           [mkDescriptor "test_project_1" PROJECT;
            mkDescriptor "1234567" ORGANIZATION]
           (snd (_project_ancestries_by_user example_crm example_world
                   "user1@example.com"))
           eq_refl eq_refl eq_refl eq_refl).
  apply surjective_pairing.
Defined.
